(** * Verification of the blog-post CRUD API (models/Post.js, routes/posts.js)

    The repository declares the [Post] model twice: [PostSchema] in
    models/Post.js (title, slug, content, ... and the [pre('validate')]
    slug hook) and [postSchema] in routes/posts.js (trimming, length limits,
    the cover-image validator, the [pre('save')] and [pre('findOneAndUpdate')]
    hooks).  The development embeds the union of both declarations: the
    fields and hooks of the first and the validators and hooks of the second.

    Conventions of the embedding.
    - A JavaScript string is a Rocq [string]; a character stands for a
      UTF-16 code unit below 256, and [length] is the JavaScript [.length].
    - A value that the source tests for truthiness and that is a string or
      [undefined] is an [option string]; [""] and [None] are both falsy.
    - The slug of a document is a [string] where [""] stands for "not set":
      [!this.slug] and the [required] validator treat [undefined] and [""]
      alike, and no other code reads the slug.
    - The third-party functions [slugify(., {lower, strict})] and the cast of
      a request parameter to an [ObjectId] are collaborators ([Deps]); the
      theorems hold for every implementation of them.
    - The store is the list of documents in insertion order together with the
      counter from which the next [ObjectId] is drawn. *)

From Stdlib Require Import Bool Arith PeanoNat ZArith NArith Lia List FinFun.
From Stdlib Require Import Ascii String.
From Stdlib Require Import DecimalNat DecimalString.
Import ListNotations.

Local Open Scope string_scope.
Local Open Scope list_scope.

(* ================================================================== *)
(** * JavaScript strings *)

(** [WhiteSpace] and [LineTerminator] code units below 256: TAB, LF, VT, FF,
    CR, SP and NBSP.  They are what [String.prototype.trim] strips. *)
Definition isWhiteSpace (c : ascii) : bool :=
  let n := nat_of_ascii c in
  (((9 <=? n) && (n <=? 13)) || (n =? 32) || (n =? 160))%nat.

(** [s.trimStart()] *)
Fixpoint trimStart (s : string) : string :=
  match s with
  | EmptyString => EmptyString
  | String c s' => if isWhiteSpace c then trimStart s' else s
  end.

(** [s.trimEnd()] *)
Fixpoint trimEnd (s : string) : string :=
  match s with
  | EmptyString => EmptyString
  | String c s' =>
      match trimEnd s' with
      | EmptyString => if isWhiteSpace c then EmptyString else String c EmptyString
      | r => String c r
      end
  end.

(** [s.trim()] *)
Definition trim (s : string) : string := trimEnd (trimStart s).

(** Truthiness of a string: [Boolean(s)]. *)
Definition truthy (s : string) : bool :=
  match s with EmptyString => false | String _ _ => true end.

(** Truthiness of a value that is a string or [undefined]. *)
Definition truthyOpt (o : option string) : bool :=
  match o with Some s => truthy s | None => false end.

(** [s.split(sep)] for a one-character separator.  The result is never
    empty: a string without separator is its own single piece. *)
Fixpoint split (sep : ascii) (s : string) : list string :=
  match s with
  | EmptyString => [EmptyString]
  | String c s' =>
      if Ascii.eqb c sep then EmptyString :: split sep s'
      else match split sep s' with
           | [] => [String c EmptyString]
           | piece :: rest => String c piece :: rest
           end
  end.

(** [pieces.join(sep)] *)
Fixpoint join (sep : string) (pieces : list string) : string :=
  match pieces with
  | [] => EmptyString
  | [p] => p
  | p :: rest => p ++ sep ++ join sep rest
  end.

(** The template literal [`${n}`] for a non-negative integer counter. *)
Definition decimal (n : nat) : string :=
  NilEmpty.string_of_uint (Nat.to_uint n).

(* ================================================================== *)
(** * Tag normalisation (routes/posts.js, "Process tags") *)

(** The [tags] member of a request body: an array of strings or one string. *)
Inductive TagsInput : Type :=
| TagsArray (entries : list string)
| TagsString (s : string).

(** [Boolean(tags)]: every array is truthy, a string is truthy when it is
    not empty. *)
Definition truthyTags (t : option TagsInput) : bool :=
  match t with
  | None => false
  | Some (TagsArray _) => true
  | Some (TagsString s) => truthy s
  end.

(** [entries.map(tag => tag.trim()).filter(Boolean)] *)
Definition trimAndDropEmpty (entries : list string) : list string :=
  filter truthy (map trim entries).

(** [processedTags] of [router.post('/')] and [router.put('/:id')]. *)
Definition processTags (tags : option TagsInput) : list string :=
  if truthyTags tags then
    match tags with
    | Some (TagsArray entries) => trimAndDropEmpty entries
    | Some (TagsString s) => trimAndDropEmpty (split "," s)
    | None => []
    end
  else [].

(* ================================================================== *)
(** * Regular expressions (the cover-image validator) *)

(** The fragment of JavaScript patterns the source uses, read under the
    [i] flag and without the [m], [s] and [u] flags. *)
Inductive regex : Type :=
| Void                       (* matches nothing *)
| Eps                        (* the empty pattern *)
| Lit (c : ascii)            (* a pattern character *)
| Dot                        (* [.] *)
| Cat (r1 r2 : regex)        (* [r1 r2] *)
| Alt (r1 r2 : regex)        (* [r1|r2] *)
| Star (r : regex).          (* [r*] *)

(** [r?] and [r+] *)
Definition Opt (r : regex) : regex := Alt r Eps.
Definition Plus (r : regex) : regex := Cat r (Star r).

(** The characters of a literal, in sequence. *)
Fixpoint Word (s : string) : regex :=
  match s with
  | EmptyString => Eps
  | String c s' => Cat (Lit c) (Word s')
  end.

(** [Canonicalize] of the [i] flag.  On the letters [a]-[z] it is the upper
    case; a code unit of 128 or more is never mapped below 128, so comparing
    with an ASCII pattern character is decided by this function. *)
Definition canonicalize (c : ascii) : ascii :=
  let n := nat_of_ascii c in
  if ((97 <=? n) && (n <=? 122))%nat then ascii_of_nat (n - 32) else c.

(** [LineTerminator] code units below 256: LF and CR.  [.] excludes them. *)
Definition isLineTerminator (c : ascii) : bool :=
  let n := nat_of_ascii c in ((n =? 10) || (n =? 13))%nat.

(** The inputs a pattern matches from its first to its last character. *)
Inductive matches : regex -> list ascii -> Prop :=
| MEps : matches Eps []
| MLit c x : canonicalize x = canonicalize c -> matches (Lit c) [x]
| MDot x : isLineTerminator x = false -> matches Dot [x]
| MCat r1 r2 s1 s2 :
    matches r1 s1 -> matches r2 s2 -> matches (Cat r1 r2) (s1 ++ s2)
| MAltL r1 r2 s : matches r1 s -> matches (Alt r1 r2) s
| MAltR r1 r2 s : matches r2 s -> matches (Alt r1 r2) s
| MStarNil r : matches (Star r) []
| MStarApp r s1 s2 :
    matches r s1 -> matches (Star r) s2 -> matches (Star r) (s1 ++ s2).

(** Does the pattern accept the empty input? *)
Fixpoint nullable (r : regex) : bool :=
  match r with
  | Void | Lit _ | Dot => false
  | Eps | Star _ => true
  | Cat r1 r2 => nullable r1 && nullable r2
  | Alt r1 r2 => nullable r1 || nullable r2
  end.

(** The pattern that is left after reading [x]. *)
Fixpoint deriv (x : ascii) (r : regex) : regex :=
  match r with
  | Void | Eps => Void
  | Lit c => if Ascii.eqb (canonicalize x) (canonicalize c) then Eps else Void
  | Dot => if isLineTerminator x then Void else Eps
  | Cat r1 r2 =>
      if nullable r1 then Alt (Cat (deriv x r1) r2) (deriv x r2)
      else Cat (deriv x r1) r2
  | Alt r1 r2 => Alt (deriv x r1) (deriv x r2)
  | Star r1 => Cat (deriv x r1) (Star r1)
  end.

Fixpoint accepts (r : regex) (input : list ascii) : bool :=
  match input with
  | [] => nullable r
  | x :: rest => accepts (deriv x r) rest
  end.

(** [/^r$/i.test(s)] *)
Definition test (r : regex) (s : string) : bool :=
  accepts r (list_ascii_of_string s).

(** [/^https?:\/\/.+\.(jpg|jpeg|png|gif|webp)$/i] *)
Definition coverImagePattern : regex :=
  Cat (Word "http")
   (Cat (Opt (Lit "s"))
    (Cat (Word "://")
     (Cat (Plus Dot)
      (Cat (Lit ".")
       (Alt (Word "jpg")
        (Alt (Word "jpeg")
         (Alt (Word "png")
          (Alt (Word "gif") (Word "webp"))))))))).

(** The [validator] function of [coverImage] in [postSchema]. *)
Definition coverImageValidator (v : string) : bool :=
  if negb (truthy v) then true (* Allow empty values *)
  else test coverImagePattern v.

(* ================================================================== *)
(** * The Post model *)

(** An [ObjectId], as the number it encodes. *)
Definition ObjectId : Type := N.

Module Post.
(** A document of the [Post] collection. *)
Record t : Type := mk {
  _id : ObjectId;
  title : string;
  slug : string;
  content : string;
  excerpt : option string;
  tags : list string;
  coverImage : option string;
  createdAt : N;
  updatedAt : N
}.

Definition set_slug (s : string) (d : t) : t :=
  mk (_id d) (title d) s (content d) (excerpt d) (tags d) (coverImage d)
     (createdAt d) (updatedAt d).

Definition set_updatedAt (now : N) (d : t) : t :=
  mk (_id d) (title d) (slug d) (content d) (excerpt d) (tags d)
     (coverImage d) (createdAt d) now.
End Post.

(** A number as it appears in a JSON response: [None] is a value that is
    not finite ([NaN], [Infinity]), which [JSON.stringify] prints as [null];
    [-0] is printed as [0] and is not told apart from it. *)
Definition jsnum : Type := option Z.

(** The filter handed to [Post.find] and [Post.countDocuments]. *)
Record Filter : Type := mkFilter {
  text_search : option string;   (* [$text: { $search }] *)
  tags_in : option string        (* [tags: { $in: [tag] }] *)
}.

(** The [options] of [Post.find] in [router.get('/')];
    [sort] is always [{ createdAt: -1 }]. *)
Record FindOptions : Type := mkFindOptions {
  limit : jsnum;
  skip : jsnum
}.

(** Third-party functions the source calls. *)
Class Deps : Type := {
  (** [slugify(title, { lower: true, strict: true })] *)
  slugify : string -> string;
  (** The [ObjectId] a request parameter denotes, if it denotes one;
      [findById], [findByIdAndUpdate] and [findByIdAndDelete] cast with it. *)
  castObjectId : string -> option ObjectId
}.

(** The query execution of the document store (text search, sorting,
    skipping, limiting, counting), which the handlers only call. *)
Class QueryEngine : Type := {
  (** [Post.find(query, null, options)] *)
  find : list Post.t -> Filter -> FindOptions -> list Post.t;
  (** [Post.countDocuments(query)] *)
  countDocuments : list Post.t -> Filter -> nat
}.

(** [mongoose.Types.ObjectId.isValid(id)] *)
Definition isValid `{Deps} (id : string) : bool :=
  match castObjectId id with Some _ => true | None => false end.

(** The collection and the generator of fresh [ObjectId]s. *)
Record Store : Type := mkStore {
  posts : list Post.t;
  nextId : ObjectId
}.

Definition emptyStore (firstId : ObjectId) : Store := mkStore [] firstId.

(** [Post.findById(id)] *)
Definition findById (ps : list Post.t) (id : ObjectId) : option Post.t :=
  List.find (fun p => N.eqb (Post._id p) id) ps.

(** [this.constructor.findOne({ slug, _id: { $ne: this._id } })] *)
Definition findOneSlug (ps : list Post.t) (slug : string) (self : ObjectId)
  : option Post.t :=
  List.find
    (fun p => String.eqb (Post.slug p) slug && negb (N.eqb (Post._id p) self)) ps.

(** [`${base}-${counter}`] *)
Definition suffixed (base : string) (counter : nat) : string :=
  base ++ "-" ++ decimal counter.

(** The [while] loop of [PostSchema.pre('validate')], entered with the
    current [slug] and [counter].  Each unit of fuel pays for one evaluation
    of the loop condition (one [findOne]).  The result is the slug the loop
    leaves in [slug] and the final value of [counter], which is the number
    of [findOne] calls made when the loop is entered with [counter = 1]. *)
Fixpoint probe (fuel : nat) (ps : list Post.t) (self : ObjectId)
  (base slug : string) (counter : nat) : option (string * nat) :=
  match fuel with
  | O => None
  | S fuel' =>
      match findOneSlug ps slug self with
      | Some _ => probe fuel' ps self base (suffixed base counter) (S counter)
      | None => Some (slug, counter)
      end
  end.

(** The loop with its initialisation [slug = base; counter = 1], given one
    evaluation of the condition more than there are documents. *)
Definition uniqueSlug (ps : list Post.t) (self : ObjectId) (base : string)
  : option (string * nat) :=
  probe (S (List.length ps)) ps self base base 1.

(** [PostSchema.pre('validate')]; [titleModified] is
    [this.isModified('title')].  [None] stands for a loop that does not
    stop. *)
Definition preValidate `{Deps} (ps : list Post.t) (now : N)
  (titleModified : bool) (this : Post.t) : option Post.t :=
  if truthy (Post.title this)
     && (negb (truthy (Post.slug this)) || titleModified)
  then
    let base := slugify (Post.title this) in
    match uniqueSlug ps (Post._id this) base with
    | Some (slug, _) => Some (Post.set_updatedAt now (Post.set_slug slug this))
    | None => None
    end
  else Some (Post.set_updatedAt now this).

(** [postSchema.pre('save')] *)
Definition preSave (now : N) (this : Post.t) : Post.t :=
  Post.set_updatedAt now this.

(** ** Schema validators *)

Definition requiredString (message : string) (v : string) : list string :=
  if truthy v then [] else [message].

Definition maxlength (n : nat) (message : string) (v : string) : list string :=
  if (String.length v <=? n)%nat then [] else [message].

Definition maxlengthOpt (n : nat) (message : string) (v : option string)
  : list string :=
  match v with Some s => maxlength n message s | None => [] end.

Definition validateCoverImage (v : option string) : list string :=
  match v with
  | Some s =>
      if coverImageValidator s then []
      else ["Cover image must be a valid image URL (jpg, jpeg, png, gif, webp)"]
  | None => []
  end.

Definition validateTags (tags : list string) : list string :=
  flat_map (maxlength 50 "Each tag cannot exceed 50 characters") tags.

(** The messages of the [ValidationError] of [doc.validate()], empty when
    the document is valid. *)
Definition validateDoc (d : Post.t) : list string :=
  requiredString "Title is required" (Post.title d)
  ++ maxlength 200 "Title cannot exceed 200 characters" (Post.title d)
  ++ requiredString "Path `slug` is required." (Post.slug d)
  ++ requiredString "Content is required" (Post.content d)
  ++ maxlengthOpt 500 "Excerpt cannot exceed 500 characters" (Post.excerpt d)
  ++ validateCoverImage (Post.coverImage d)
  ++ validateTags (Post.tags d).

(* ================================================================== *)
(** * The request handlers (routes/posts.js) *)

Module Body.
(** [req.body] of [POST /] and [PUT /:id]. *)
Record t : Type := mk {
  title : option string;
  content : option string;
  excerpt : option string;
  coverImage : option string;
  tags : option TagsInput
}.
End Body.

Module Pagination.
Record t : Type := mk {
  page : jsnum;
  limit : jsnum;
  total : nat;
  pages : jsnum
}.
End Pagination.

Inductive Json : Type :=
| JsonPost (post : Post.t)
| JsonError (error : string)
| JsonDeleted (message : string) (deletedPost : Post.t)
| JsonPosts (posts : list Post.t) (pagination : Pagination.t).

Record Response : Type := mkResponse {
  status : nat;
  json : Json
}.

(** ** Input validation, shared by [POST /] and [PUT /:id] *)

(** The three [if] statements under "Validation".  The result is the error
    message of the first one that fires, or the title and content. *)
Definition checkInput (b : Body.t) : string + (string * string) :=
  match Body.title b, Body.content b with
  | Some title, Some content =>
      if negb (truthy title) || negb (truthy content) then
        inl "Title and content are required"
      else if (String.length (trim title) <? 3)%nat then
        inl "Title must be at least 3 characters long"
      else if (String.length (trim content) <? 10)%nat then
        inl "Content must be at least 10 characters long"
      else inr (title, content)
  | _, _ => inl "Title and content are required"
  end.

(** [v ? v.trim() : undefined] *)
Definition trimIfTruthy (v : option string) : option string :=
  match v with
  | Some s => if truthy s then Some (trim s) else None
  | None => None
  end.

(** ** [POST /] *)

(** [new Post({ title, content, excerpt, coverImage, tags })]: the document
    gets a fresh [_id], the [Date.now] defaults and no slug; the setters of
    the paths declared with [trim: true] are applied. *)
Definition newPost (id : ObjectId) (now : N) (title content : string)
  (excerpt coverImage : option string) (tags : list string) : Post.t :=
  Post.mk id (trim title) "" content (option_map trim excerpt)
          (map trim tags) (option_map trim coverImage) now now.

(** The insertion of [save()]: the [_id] index and the [unique] index on
    [slug] refuse a duplicate key. *)
Definition insertOne (d : Post.t) (ps : list Post.t) : option (list Post.t) :=
  if existsb (fun p => String.eqb (Post.slug p) (Post.slug d)
                       || N.eqb (Post._id p) (Post._id d)) ps
  then None
  else Some (ps ++ [d]).

Inductive SaveResult : Type :=
| Saved (savedPost : Post.t) (ps : list Post.t)
| ValidationError (messages : list string)
| OtherError.

(** [post.save()] on a new document: the [pre('validate')] hook (every path
    of a new document is modified), validation, the [pre('save')] hook, the
    insertion. *)
Definition save `{Deps} (now : N) (doc : Post.t) (ps : list Post.t)
  : option SaveResult :=
  match preValidate ps now true doc with
  | None => None
  | Some doc1 =>
      match validateDoc doc1 with
      | [] =>
          let doc2 := preSave now doc1 in
          match insertOne doc2 ps with
          | Some ps' => Some (Saved doc2 ps')
          | None => Some OtherError
          end
      | messages => Some (ValidationError messages)
      end
  end.

(** [router.post('/')].  [now] is the value of [Date.now()] during the
    request; [None] stands for a request that is never answered. *)
Definition createPost `{Deps} (now : N) (b : Body.t) (st : Store)
  : option (Response * Store) :=
  match checkInput b with
  | inl message => Some (mkResponse 400 (JsonError message), st)
  | inr (title, content) =>
      let post :=
        newPost (nextId st) now (trim title) (trim content)
                (trimIfTruthy (Body.excerpt b))
                (trimIfTruthy (Body.coverImage b))
                (processTags (Body.tags b)) in
      let next := N.succ (nextId st) in
      match save now post (posts st) with
      | None => None
      | Some (Saved savedPost ps') =>
          Some (mkResponse 201 (JsonPost savedPost), mkStore ps' next)
      | Some (ValidationError messages) =>
          Some (mkResponse 400 (JsonError (join ", " messages)),
                mkStore (posts st) next)
      | Some OtherError =>
          Some (mkResponse 500 (JsonError "Failed to create post"),
                mkStore (posts st) next)
      end
  end.

(** ** [PUT /:id] *)

Module Update.
(** The update document handed to [findByIdAndUpdate]. *)
Record t : Type := mk {
  title : string;
  content : string;
  excerpt : option string;
  coverImage : option string;
  tags : list string;
  updatedAt : N
}.
End Update.

(** The update validators ([runValidators: true]) on the paths that the
    update sets. *)
Definition validateUpdate (u : Update.t) : list string :=
  requiredString "Title is required" (Update.title u)
  ++ maxlength 200 "Title cannot exceed 200 characters" (Update.title u)
  ++ requiredString "Content is required" (Update.content u)
  ++ maxlengthOpt 500 "Excerpt cannot exceed 500 characters" (Update.excerpt u)
  ++ validateCoverImage (Update.coverImage u)
  ++ validateTags (Update.tags u).

(** The document after the update: the paths of the update are set, a path
    whose value is [undefined] is left as it is, and no other path (the
    [_id], the slug, [createdAt]) is touched. *)
Definition applyUpdate (u : Update.t) (d : Post.t) : Post.t :=
  Post.mk (Post._id d) (Update.title u) (Post.slug d) (Update.content u)
          (match Update.excerpt u with Some e => Some e | None => Post.excerpt d end)
          (Update.tags u)
          (match Update.coverImage u with
           | Some c => Some c
           | None => Post.coverImage d
           end)
          (Post.createdAt d) (Update.updatedAt u).

(** The first document with this [_id] is replaced. *)
Fixpoint replaceById (id : ObjectId) (d' : Post.t) (ps : list Post.t)
  : list Post.t :=
  match ps with
  | [] => []
  | p :: rest =>
      if N.eqb (Post._id p) id then d' :: rest
      else p :: replaceById id d' rest
  end.

Inductive UpdateResult : Type :=
| Updated (updatedPost : Post.t) (ps : list Post.t)
| NotFound
| UpdateValidationError (messages : list string).

(** The update as the query sends it: the [pre('findOneAndUpdate')] hook
    sets [updatedAt] and casting applies the setters of the [trim: true]
    paths. *)
Definition castUpdate (now : N) (u : Update.t) : Update.t :=
  Update.mk (trim (Update.title u)) (Update.content u)
            (option_map trim (Update.excerpt u))
            (option_map trim (Update.coverImage u))
            (map trim (Update.tags u)) now.

(** [Post.findByIdAndUpdate(id, update, { new: true, runValidators: true })]:
    the update is cast and validated, then the store applies it.  This is
    query middleware: the document hook [pre('validate')] is not part of
    it. *)
Definition findByIdAndUpdate (now : N) (id : ObjectId) (u : Update.t)
  (ps : list Post.t) : UpdateResult :=
  let u1 := castUpdate now u in
  match validateUpdate u1 with
  | [] =>
      match findById ps id with
      | Some d =>
          let d' := applyUpdate u1 d in
          Updated d' (replaceById id d' ps)
      | None => NotFound
      end
  | messages => UpdateValidationError messages
  end.

(** The update document that [router.put('/:id')] builds. *)
Definition updateOf (now : N) (b : Body.t) (title content : string) : Update.t :=
  Update.mk (trim title) (trim content)
            (trimIfTruthy (Body.excerpt b))
            (trimIfTruthy (Body.coverImage b))
            (processTags (Body.tags b)) now.

(** [router.put('/:id')] *)
Definition updatePost `{Deps} (now : N) (id : string) (b : Body.t) (st : Store)
  : Response * Store :=
  match castObjectId id with
  | None => (mkResponse 400 (JsonError "Invalid post ID format"), st)
  | Some oid =>
      match checkInput b with
      | inl message => (mkResponse 400 (JsonError message), st)
      | inr (title, content) =>
          let update := updateOf now b title content in
          match findByIdAndUpdate now oid update (posts st) with
          | Updated updatedPost ps' =>
              (mkResponse 200 (JsonPost updatedPost), mkStore ps' (nextId st))
          | NotFound => (mkResponse 404 (JsonError "Post not found"), st)
          | UpdateValidationError messages =>
              (mkResponse 400 (JsonError (join ", " messages)), st)
          end
      end
  end.

(** ** [GET /:id] and [DELETE /:id] *)

(** [router.get('/:id')] *)
Definition getPost `{Deps} (id : string) (st : Store) : Response :=
  match castObjectId id with
  | None => mkResponse 400 (JsonError "Invalid post ID")
  | Some oid =>
      match findById (posts st) oid with
      | None => mkResponse 404 (JsonError "Post not found")
      | Some post => mkResponse 200 (JsonPost post)
      end
  end.

(** The collection without its first document with this [_id]. *)
Fixpoint removeById (id : ObjectId) (ps : list Post.t) : list Post.t :=
  match ps with
  | [] => []
  | p :: rest =>
      if N.eqb (Post._id p) id then rest else p :: removeById id rest
  end.

(** [router.delete('/:id')]; [Post.findByIdAndDelete(id)] returns the
    document it removes. *)
Definition deletePost `{Deps} (id : string) (st : Store) : Response * Store :=
  match castObjectId id with
  | None => (mkResponse 400 (JsonError "Invalid post ID"), st)
  | Some oid =>
      match findById (posts st) oid with
      | None => (mkResponse 404 (JsonError "Post not found"), st)
      | Some deletedPost =>
          (mkResponse 200 (JsonDeleted "Post deleted successfully" deletedPost),
           mkStore (removeById oid (posts st)) (nextId st))
      end
  end.

(** ** [GET /] *)

Module Query.
(** [req.query] *)
Record t : Type := mk {
  page : option string;
  limit : option string;
  search : option string;
  tag : option string
}.
End Query.

(** The value of a digit or letter in [radix], if it is a digit there. *)
Definition digitValue (radix : nat) (c : ascii) : option nat :=
  let n := nat_of_ascii c in
  let v :=
    if ((48 <=? n) && (n <=? 57))%nat then Some (n - 48)
    else if ((97 <=? n) && (n <=? 122))%nat then Some (n - 87)
    else if ((65 <=? n) && (n <=? 90))%nat then Some (n - 55)
    else None in
  match v with
  | Some d => if (d <? radix)%nat then Some d else None
  | None => None
  end.

(** The longest prefix of digits, read in [radix]; [acc] is [None] until a
    digit has been read. *)
Fixpoint parseDigits (radix : nat) (acc : option Z) (s : string) : option Z :=
  match s with
  | EmptyString => acc
  | String c s' =>
      match digitValue radix c with
      | Some d =>
          let a := match acc with Some a => a | None => 0%Z end in
          parseDigits radix (Some (Z.of_nat radix * a + Z.of_nat d)%Z) s'
      | None => acc
      end
  end.

(** [parseInt(s)] without a radix argument: leading white space, a sign, a
    [0x] prefix, then digits; [NaN] when there is no digit.  The integer is
    the exact one (doubles are exact below 2^53). *)
Definition parseInt (s : string) : jsnum :=
  let s1 := trimStart s in
  let '(sign, s2) :=
    match s1 with
    | String "-" r => ((-1)%Z, r)
    | String "+" r => (1%Z, r)
    | _ => (1%Z, s1)
    end in
  let '(radix, s3) :=
    match s2 with
    | String "0" (String "x" r) => (16, r)
    | String "0" (String "X" r) => (16, r)
    | _ => (10, s2)
    end in
  option_map (Z.mul sign) (parseDigits radix None s3).

(** A destructuring default: [{ name = default } = req.query]. *)
Definition orDefault (default : string) (v : option string) : string :=
  match v with Some s => s | None => default end.

(** [Math.min(a, b)] with a finite [b] *)
Definition mathMin (a : jsnum) (b : Z) : jsnum := option_map (fun z => Z.min z b) a.

(** [(a - 1) * b] *)
Definition pagesBefore (a b : jsnum) : jsnum :=
  match a, b with
  | Some x, Some y => Some ((x - 1) * y)%Z
  | _, _ => None
  end.

(** [Math.ceil(total / d)]: not finite when [d] is [NaN] or zero. *)
Definition ceilDiv (total : nat) (d : jsnum) : jsnum :=
  match d with
  | Some z => if (z =? 0)%Z then None else Some (- ((- Z.of_nat total) / z))%Z
  | None => None
  end.

(** A filter member that is set only for a truthy parameter. *)
Definition whenTruthy (v : option string) : option string :=
  if truthyOpt v then v else None.

Record Listing : Type := mkListing {
  query : Filter;
  options : FindOptions;
  response : Response
}.

(** [router.get('/')], with the filter and options it hands to the store. *)
Definition getPosts `{QueryEngine} (q : Query.t) (st : Store) : Listing :=
  let page := orDefault "1" (Query.page q) in
  let limit := orDefault "10" (Query.limit q) in
  let query := mkFilter (whenTruthy (Query.search q)) (whenTruthy (Query.tag q)) in
  let options :=
    mkFindOptions (mathMin (parseInt limit) 50) (* Cap at 50 posts per request *)
                  (pagesBefore (parseInt page) (parseInt limit)) in
  let total := countDocuments (posts st) query in
  mkListing query options
    (mkResponse 200
       (JsonPosts (find (posts st) query options)
          (Pagination.mk (parseInt page) (parseInt limit) total
                         (ceilDiv total (parseInt limit))))).

(* ================================================================== *)
(** * An implementation of the collaborators, for running the handlers *)

Definition isAlphaNumeric (c : ascii) : bool :=
  let n := nat_of_ascii c in
  (((48 <=? n) && (n <=? 57)) || ((65 <=? n) && (n <=? 90))
   || ((97 <=? n) && (n <=? 122)))%nat.

(** [s.toLowerCase()] on ASCII letters. *)
Definition lowerChar (c : ascii) : ascii :=
  let n := nat_of_ascii c in
  if ((65 <=? n) && (n <=? 90))%nat then ascii_of_nat (n + 32) else c.

Fixpoint toLowerCase (s : string) : string :=
  match s with
  | EmptyString => EmptyString
  | String c s' => String (lowerChar c) (toLowerCase s')
  end.

(** The package's character map on ASCII symbols; the replacement character
    [-] counts as a space. *)
Definition charMap (c : ascii) : string :=
  match c with
  | "$"%char => "dollar"
  | "%"%char => "percent"
  | "&"%char => "and"
  | "<"%char => "less"
  | ">"%char => "greater"
  | "|"%char => "or"
  | "-"%char => " "
  | _ => String c EmptyString
  end.

(** Every character replaced by its image under the character map. *)
Fixpoint mapChars (s : string) : string :=
  match s with
  | EmptyString => EmptyString
  | String c s' => charMap c ++ mapChars s'
  end.

(** [s.replace(/[^A-Za-z0-9\s]/g, '')]: what the [strict] option keeps. *)
Fixpoint keepStrict (s : string) : string :=
  match s with
  | EmptyString => EmptyString
  | String c s' =>
      if isAlphaNumeric c || isWhiteSpace c then String c (keepStrict s')
      else keepStrict s'
  end.

(** [s.replace(/\s+/g, '-')]; [inRun] tells that the previous character was
    white space. *)
Fixpoint hyphenate (inRun : bool) (s : string) : string :=
  match s with
  | EmptyString => EmptyString
  | String c s' =>
      if isWhiteSpace c then
        if inRun then hyphenate true s' else String "-" (hyphenate true s')
      else String c (hyphenate false s')
  end.

(** [slugify(s, { lower: true, strict: true })] on ASCII input. *)
Definition slugifyAscii (s : string) : string :=
  toLowerCase (hyphenate false (trim (keepStrict (mapChars s)))).

Definition hexValue (c : ascii) : option N :=
  option_map N.of_nat (digitValue 16 c).

Fixpoint hexDigits (acc : N) (s : string) : option N :=
  match s with
  | EmptyString => Some acc
  | String c s' =>
      match hexValue c with
      | Some d => hexDigits (16 * acc + d)%N s'
      | None => None
      end
  end.

(** The [ObjectId] written as 24 hexadecimal digits. *)
Definition hexObjectId (s : string) : option ObjectId :=
  if (String.length s =? 24)%nat then hexDigits 0%N s else None.

#[local] Instance asciiDeps : Deps :=
  {| slugify := slugifyAscii; castObjectId := hexObjectId |}.

(* ================================================================== *)
(** * Vocabulary of the statements *)

(** The [k]-th slug the hook tries for a base slug: [base], [base-1],
    [base-2], ... *)
Definition candidate (base : string) (k : nat) : string :=
  match k with
  | O => base
  | S _ => suffixed base k
  end.

(** A slug is taken, for the document [self], when another document of the
    collection carries it. *)
Definition taken (ps : list Post.t) (self : ObjectId) (slug : string) : bool :=
  match findOneSlug ps slug self with Some _ => true | None => false end.

(** The input spells the word [w], without regard to the case of letters. *)
Definition spells (input : list ascii) (w : string) : Prop :=
  map canonicalize input = map canonicalize (list_ascii_of_string w).

(** The input is on one line. *)
Definition oneLine (input : list ascii) : Prop :=
  Forall (fun x => isLineTerminator x = false) input.



(** Requests to [POST /] served one after another. *)
Fixpoint createAll `{Deps} (reqs : list (N * Body.t)) (st : Store)
  : option (list Response * Store) :=
  match reqs with
  | [] => Some ([], st)
  | (now, b) :: rest =>
      match createPost now b st with
      | None => None
      | Some (r, st1) =>
          match createAll rest st1 with
          | None => None
          | Some (rs, st2) => Some (r :: rs, st2)
          end
      end
  end.

(** Every document of the collection was given an [_id] the generator has
    already passed, and no two documents share an [_id] or a slug. *)
Definition wellFormed (st : Store) : Prop :=
  (forall p, In p (posts st) -> (Post._id p < nextId st)%N)
  /\ NoDup (map Post._id (posts st))
  /\ NoDup (map Post.slug (posts st)).

(** The message with which [PUT /:id] refuses a request body, before the
    store is asked for the document: that of the handler's own checks, or
    the joined messages of the update validators. *)
Definition bodyError (now : N) (b : Body.t) : option string :=
  match checkInput b with
  | inl message => Some message
  | inr (title, content) =>
      match validateUpdate (castUpdate now (updateOf now b title content)) with
      | [] => None
      | messages => Some (join ", " messages)
      end
  end.

(** The pagination a response carries, if it carries one. *)
Definition paginationOf (r : Response) : option Pagination.t :=
  match json r with
  | JsonPosts _ pagination => Some pagination
  | _ => None
  end.

(** A request body with the members every post needs. *)
Definition plainBody (title content : string) : Body.t :=
  Body.mk (Some title) (Some content) None None None.

(** The store after the first "Hello World" post was created in an empty
    collection. *)
Definition helloStore : Store :=
  match createPost (H := asciiDeps) 1%N (plainBody "Hello World" "First content")
                   (emptyStore 0%N) with
  | Some (_, st) => st
  | None => emptyStore 0%N
  end.



(** What the schema and the handlers let into the collection: trimmed
    title, content, excerpt, cover image and tags within their limits, and a
    slug. *)
Definition validPost (p : Post.t) : Prop :=
  trim (Post.title p) = Post.title p
  /\ (3 <= String.length (Post.title p) <= 200)%nat
  /\ trim (Post.content p) = Post.content p
  /\ (10 <= String.length (Post.content p))%nat
  /\ Post.slug p <> ""
  /\ (forall e, Post.excerpt p = Some e ->
        trim e = e /\ (String.length e <= 500)%nat)
  /\ (forall c, Post.coverImage p = Some c ->
        trim c = c /\ coverImageValidator c = true)
  /\ Forall (fun tag => tag <> "" /\ trim tag = tag
                        /\ (String.length tag <= 50)%nat) (Post.tags p).

(** The document that [POST /] builds from a body that passed the checks,
    with the slug the hook gave it. *)
Definition createdPost (id : ObjectId) (now : N) (b : Body.t)
  (title content slug : string) : Post.t :=
  Post.mk id (trim title) slug (trim content) (trimIfTruthy (Body.excerpt b))
          (processTags (Body.tags b)) (trimIfTruthy (Body.coverImage b))
          now now.

(** The request body that sends the fields of a stored post back. *)
Definition bodyOf (p : Post.t) : Body.t :=
  Body.mk (Some (Post.title p)) (Some (Post.content p)) (Post.excerpt p)
          (Post.coverImage p) (Some (TagsArray (Post.tags p))).




(** The string consists of white space. *)
Definition blank (s : string) : Prop :=
  Forall (fun c => isWhiteSpace c = true) (list_ascii_of_string s).

(** The string does not start with white space. *)
Definition startsTight (s : string) : bool :=
  match s with
  | EmptyString => true
  | String c _ => negb (isWhiteSpace c)
  end.

(** The string does not end with white space. *)
Fixpoint endsTight (s : string) : bool :=
  match s with
  | EmptyString => true
  | String c EmptyString => negb (isWhiteSpace c)
  | String _ s' => endsTight s'
  end.

(** No character of the string is the separator. *)
Definition freeOf (sep : ascii) (s : string) : Prop :=
  ~ In sep (list_ascii_of_string s).

(* ================================================================== *)
(** * Strings: lengths, trimming, decimal numerals *)

Local Open Scope nat_scope.

Lemma length_append (s t : string) :
  String.length (s ++ t)%string = String.length s + String.length t.
Proof. induction s as [|c s IH]; simpl; [reflexivity | now rewrite IH]. Qed.

Lemma append_inv_head (s t u : string) : (s ++ t = s ++ u)%string -> t = u.
Proof.
  induction s as [|c s IH]; simpl; intros E; [assumption|].
  injection E as E. auto.
Qed.


Lemma truthy_length (s : string) : truthy s = true <-> 0 < String.length s.
Proof. destruct s; simpl; split; intros; try congruence; lia. Qed.

(** What [trimStart] returns does not start with white space. *)
Lemma trimStart_head (s : string) :
  match trimStart s with
  | EmptyString => True
  | String c _ => isWhiteSpace c = false
  end.
Proof.
  induction s as [|c s IH]; simpl; [exact I|].
  destruct (isWhiteSpace c) eqn:E; [exact IH | simpl; exact E].
Qed.

Lemma trimStart_fixed (c : ascii) (s : string) :
  isWhiteSpace c = false -> trimStart (String c s) = String c s.
Proof. intros E; simpl; now rewrite E. Qed.

(** [trimEnd] keeps the first character of a string that does not start
    with white space. *)
Lemma trimEnd_head (c : ascii) (s : string) :
  isWhiteSpace c = false -> exists r, trimEnd (String c s) = String c r.
Proof.
  intros E; simpl. destruct (trimEnd s); [rewrite E|]; eauto.
Qed.

Lemma trimEnd_cons (c : ascii) (s : string) :
  trimEnd (String c s) =
  match trimEnd s with
  | EmptyString => if isWhiteSpace c then EmptyString else String c EmptyString
  | r => String c r
  end.
Proof. reflexivity. Qed.

Lemma trimEnd_idempotent (s : string) : trimEnd (trimEnd s) = trimEnd s.
Proof.
  induction s as [|c s IH]; [reflexivity|].
  rewrite trimEnd_cons.
  destruct (trimEnd s) as [|d r] eqn:E.
  - destruct (isWhiteSpace c) eqn:W; [reflexivity|].
    rewrite trimEnd_cons. simpl. now rewrite W.
  - rewrite trimEnd_cons, IH. reflexivity.
Qed.

(** Re-trimming a trimmed string changes nothing. *)
Lemma trim_idempotent (s : string) : trim (trim s) = trim s.
Proof.
  unfold trim. pose proof (trimStart_head s) as H.
  destruct (trimStart s) as [|c r]; [reflexivity|].
  destruct (trimEnd_head c r H) as [r' E]. rewrite E.
  rewrite (trimStart_fixed c r' H), <- E. apply trimEnd_idempotent.
Qed.

Lemma decimal_inj (i j : nat) : decimal i = decimal j -> i = j.
Proof.
  unfold decimal; intros E.
  apply Unsigned.to_uint_inj.
  assert (Some (Nat.to_uint i) = Some (Nat.to_uint j)) as E'
    by (rewrite <- !NilEmpty.usu; now rewrite E).
  now injection E'.
Qed.

Lemma suffixed_inj (base : string) (i j : nat) :
  suffixed base i = suffixed base j -> i = j.
Proof.
  unfold suffixed; intros E.
  apply append_inv_head in E. apply (append_inv_head "-") in E.
  now apply decimal_inj.
Qed.

Lemma suffixed_neq_base (base : string) (k : nat) : suffixed base k <> base.
Proof.
  unfold suffixed; intros E.
  apply (f_equal String.length) in E. rewrite length_append in E.
  simpl in E. lia.
Qed.

(** The candidate slugs of a base slug are pairwise distinct. *)
Lemma candidate_inj (base : string) (i j : nat) :
  candidate base i = candidate base j -> i = j.
Proof.
  destruct i, j; simpl; intros E; try reflexivity.
  - symmetry in E. now apply suffixed_neq_base in E.
  - now apply suffixed_neq_base in E.
  - now apply suffixed_inj in E.
Qed.

(* ================================================================== *)
(** * The slug probe *)

Lemma taken_spec (ps : list Post.t) (self : ObjectId) (s : string) :
  taken ps self s = true <->
  exists p, In p ps /\ Post.slug p = s /\ Post._id p <> self.
Proof.
  unfold taken, findOneSlug. split.
  - destruct (List.find _ ps) as [p|] eqn:F; [intros _|discriminate].
    apply find_some in F. destruct F as [I F].
    apply andb_prop in F. destruct F as [F1 F2].
    exists p. repeat split; [assumption | now apply String.eqb_eq |].
    apply negb_true_iff, N.eqb_neq in F2. assumption.
  - intros (p & I & E & D).
    destruct (List.find _ ps) as [q|] eqn:F; [reflexivity|].
    apply (find_none _ _ F) in I. rewrite E, String.eqb_refl in I.
    apply N.eqb_neq in D. rewrite D in I. discriminate.
Qed.

Lemma taken_in (ps : list Post.t) (self : ObjectId) (s : string) :
  taken ps self s = true -> In s (map Post.slug ps).
Proof.
  intros T. apply taken_spec in T. destruct T as (p & I & E & _).
  rewrite <- E. now apply in_map.
Qed.

Lemma forallb_false_exists {A : Type} (f : A -> bool) (l : list A) :
  forallb f l = false -> exists x, In x l /\ f x = false.
Proof.
  induction l as [|a l IH]; simpl; [discriminate|].
  destruct (f a) eqn:E; simpl; intros F.
  - destruct (IH F) as (x & I & Fx). exists x. auto.
  - exists a. auto.
Qed.

(** One round of the loop. *)
Lemma probe_step (fuel : nat) ps self base slug counter :
  probe (S fuel) ps self base slug counter =
  if taken ps self slug
  then probe fuel ps self base (suffixed base counter) (S counter)
  else Some (slug, counter).
Proof. unfold taken; simpl. now destruct (findOneSlug ps slug self). Qed.

(** The loop, entered at candidate [k], walks over taken candidates and
    stops at the first free one. *)
Lemma probe_first_free (m : nat) : forall fuel ps self base k,
  (forall j, k <= j < k + m -> taken ps self (candidate base j) = true) ->
  taken ps self (candidate base (k + m)) = false ->
  m < fuel ->
  probe fuel ps self base (candidate base k) (S k)
  = Some (candidate base (k + m), S (k + m)).
Proof.
  induction m as [|m IH]; intros fuel ps self base k Busy Free Fuel;
    (destruct fuel as [|fuel]; [lia|]); rewrite probe_step.
  - rewrite Nat.add_0_r in *. now rewrite Free.
  - rewrite (Busy k) by lia.
    change (suffixed base (S k)) with (candidate base (S k)).
    replace (k + S m) with (S k + m) in * by lia.
    apply IH; [intros j Hj; apply Busy; lia | assumption | lia].
Qed.

(** Among the first [n + 1] candidates, one is not the slug of any of [n]
    documents. *)
Lemma some_candidate_free (ps : list Post.t) (self : ObjectId) (base : string) :
  exists j, j <= List.length ps /\ taken ps self (candidate base j) = false.
Proof.
  destruct (forallb (fun j => taken ps self (candidate base j))
                    (seq 0 (S (List.length ps)))) eqn:A.
  - exfalso. rewrite forallb_forall in A.
    assert (NoDup (map (candidate base) (seq 0 (S (List.length ps))))) as ND.
    { apply Injective_map_NoDup; [|apply seq_NoDup].
      intros i j. apply candidate_inj. }
    apply NoDup_incl_length with (l' := map Post.slug ps) in ND.
    + rewrite !length_map, length_seq in ND. lia.
    + intros s I. apply in_map_iff in I. destruct I as (j & <- & I).
      apply taken_in with self. now apply A.
  - apply forallb_false_exists in A.
    destruct A as (j & I & F). apply in_seq in I.
    exists j. split; [lia | assumption].
Qed.

(** The least index at which a boolean test fails, below a failing index. *)
Lemma least_false (f : nat -> bool) (n : nat) :
  f n = false ->
  exists m, m <= n /\ f m = false /\ forall j, j < m -> f j = true.
Proof.
  induction n as [n IH] using lt_wf_ind. intros F.
  destruct (forallb f (seq 0 n)) eqn:A.
  - rewrite forallb_forall in A. exists n. repeat split; [lia | assumption |].
    intros j Hj. apply A, in_seq. lia.
  - apply forallb_false_exists in A.
    destruct A as (k & I & Fk). apply in_seq in I.
    destruct (IH k) as (m & Hm & Fm & L); [lia | assumption |].
    exists m. repeat split; [lia | assumption | assumption].
Qed.

(** The loop stops: it returns the first free candidate, after at most one
    check more than there are documents, and more fuel does not change the
    result. *)
Lemma probe_total (ps : list Post.t) (self : ObjectId) (base : string) :
  exists m,
    m <= List.length ps
    /\ taken ps self (candidate base m) = false
    /\ (forall j, j < m -> taken ps self (candidate base j) = true)
    /\ forall fuel, m < fuel ->
         probe fuel ps self base base 1 = Some (candidate base m, S m).
Proof.
  destruct (some_candidate_free ps self base) as (j & Hj & F).
  destruct (least_false (fun j => taken ps self (candidate base j)) j F)
    as (m & Hm & Fm & L).
  exists m. repeat split; [lia | assumption | assumption |].
  intros fuel Hf.
  apply (probe_first_free m fuel ps self base 0);
    [intros i Hi; apply L; lia | assumption | assumption].
Qed.


(** With fewer evaluations of the condition than taken candidates, the loop
    has not stopped yet. *)
Lemma probe_starved (fuel : nat) : forall ps self base k,
  (forall j, k <= j < k + fuel -> taken ps self (candidate base j) = true) ->
  probe fuel ps self base (candidate base k) (S k) = None.
Proof.
  induction fuel as [|fuel IH]; intros ps self base k Busy; [reflexivity|].
  rewrite probe_step, (Busy k) by lia.
  change (suffixed base (S k)) with (candidate base (S k)).
  apply IH. intros j Hj. apply Busy. lia.
Qed.

Example probe_third_hello :
  uniqueSlug
    [ Post.mk 0%N "Hello World" "hello-world" "First content" None [] None 1%N 1%N;
      Post.mk 1%N "Hello World" "hello-world-1" "Second content" None [] None
              2%N 2%N ]
    2%N "hello-world"
  = Some ("hello-world-2", 3).
Proof. reflexivity. Qed.

(** A document that is saved again does not collide with itself. *)
Example probe_skips_self :
  uniqueSlug
    [ Post.mk 0%N "Hello World" "hello-world" "First content" None [] None 1%N 1%N ]
    0%N "hello-world"
  = Some ("hello-world", 1).
Proof. reflexivity. Qed.

(** C10. The probe loop of the [pre('validate')] hook terminates for every
    finite collection: entered with the base slug, it stops at a free slug
    after [checks] evaluations of its condition, where [checks] is at most
    the number of existing posts plus one; the slug is the candidate number
    [checks - 1] of the pairwise distinct candidates base, base-1, base-2,
    ...; [checks] evaluations are needed and any larger number yields the
    same result. *)
Theorem C10_probe_terminates (ps : list Post.t) (self : ObjectId) (base : string) :
  exists slug checks,
    uniqueSlug ps self base = Some (slug, checks)
    /\ 1 <= checks <= List.length ps + 1
    /\ slug = candidate base (checks - 1)
    /\ findOneSlug ps slug self = None
    /\ (forall fuel, checks <= fuel ->
          probe fuel ps self base base 1 = Some (slug, checks))
    /\ (forall fuel, fuel < checks -> probe fuel ps self base base 1 = None)
    /\ (forall i j, candidate base i = candidate base j -> i = j).
Proof.
  destruct (probe_total ps self base) as (m & Hm & Free & Busy & Run).
  exists (candidate base m), (S m). repeat split.
  - unfold uniqueSlug. apply Run. lia.
  - lia.
  - lia.
  - now rewrite Nat.sub_succ, Nat.sub_0_r.
  - unfold taken in Free. now destruct (findOneSlug ps (candidate base m) self).
  - intros fuel Hf. apply Run. lia.
  - intros fuel Hf. apply (probe_starved fuel ps self base 0).
    intros j Hj. apply Busy. lia.
  - apply candidate_inj.
Qed.

(* ================================================================== *)
(** * Saving a new document *)

Section Saving.
Context `{Deps}.

(** The hook always returns. *)
Lemma uniqueSlug_total (ps : list Post.t) (self : ObjectId) (base : string) :
  exists slug checks, uniqueSlug ps self base = Some (slug, checks).
Proof.
  destruct (probe_total ps self base) as (m & Hm & _ & _ & Run).
  exists (candidate base m), (S m). apply Run. lia.
Qed.

Lemma preValidate_total ps now titleModified this :
  exists d, preValidate ps now titleModified this = Some d.
Proof.
  unfold preValidate.
  destruct (truthy (Post.title this) && _); [|eauto].
  destruct (uniqueSlug_total ps (Post._id this) (slugify (Post.title this)))
    as (s & c & E).
  rewrite E. eauto.
Qed.

(** Every request to [POST /] is answered. *)
Lemma createPost_total now b st : exists r st', createPost now b st = Some (r, st').
Proof.
  unfold createPost. destruct (checkInput b) as [msg|[title content]]; [eauto|].
  unfold save.
  match goal with
  | |- context [preValidate ?ps ?n ?m ?d] =>
      destruct (preValidate_total ps n m d) as (d1 & E); rewrite E
  end.
  destruct (validateDoc d1); [|eauto].
  destruct (insertOne _ _); eauto.
Qed.

Lemma createAll_total reqs : forall st,
  exists rs st', createAll reqs st = Some (rs, st').
Proof.
  induction reqs as [|[now b] reqs IH]; intros st; simpl; [eauto|].
  destruct (createPost_total now b st) as (r & st1 & E). rewrite E.
  destruct (IH st1) as (rs & st2 & E2). rewrite E2. eauto.
Qed.

(** What [checkInput] lets through. *)
Lemma checkInput_inr b title content :
  checkInput b = inr (title, content) ->
  Body.title b = Some title /\ Body.content b = Some content
  /\ 3 <= String.length (trim title) /\ 10 <= String.length (trim content).
Proof.
  unfold checkInput.
  destruct (Body.title b) as [t|], (Body.content b) as [c|]; try discriminate.
  destruct (negb (truthy t) || negb (truthy c)); [discriminate|].
  destruct (String.length (trim t) <? 3) eqn:Lt; [discriminate|].
  destruct (String.length (trim c) <? 10) eqn:Lc; [discriminate|].
  intros E. injection E as -> ->.
  apply Nat.ltb_ge in Lt, Lc. auto.
Qed.

End Saving.

(* ================================================================== *)
(** * Posts created with one title *)

Section SameTitle.
Context `{Deps}.




End SameTitle.



(* ================================================================== *)
(** * Deleting a post *)





(* ================================================================== *)
(** * The pattern matcher *)

Lemma nullable_matches (r : regex) : nullable r = true -> matches r [].
Proof.
  induction r; simpl; intros N; try discriminate.
  - constructor.
  - apply andb_prop in N. destruct N as [N1 N2].
    change (@nil ascii) with (@nil ascii ++ []). constructor; auto.
  - apply orb_prop in N. destruct N as [N|N];
      [apply MAltL | apply MAltR]; auto.
  - constructor.
Qed.

Lemma matches_nil_nullable (r : regex) (s : list ascii) :
  matches r s -> s = [] -> nullable r = true.
Proof.
  induction 1; intros E; simpl; try reflexivity; try discriminate.
  - apply app_eq_nil in E. destruct E. rewrite IHmatches1, IHmatches2; auto.
  - rewrite IHmatches; auto.
  - rewrite IHmatches; auto using orb_true_r.
Qed.

Lemma nullable_spec (r : regex) : nullable r = true <-> matches r [].
Proof.
  split; [apply nullable_matches|].
  intros M. now apply (matches_nil_nullable r []).
Qed.

(** What is left after reading [x] matches the rest of the input. *)
Lemma deriv_sound (x : ascii) (r : regex) : forall s,
  matches (deriv x r) s -> matches r (x :: s).
Proof.
  induction r; simpl; intros s M.
  - inversion M.
  - inversion M.
  - destruct (Ascii.eqb_spec (canonicalize x) (canonicalize c)) as [E|E];
      inversion M; subst. now constructor.
  - destruct (isLineTerminator x) eqn:E; inversion M; subst. now constructor.
  - destruct (nullable r1) eqn:N.
    + inversion M as [| | | | ? ? ? M1 | ? ? ? M2 | |]; subst.
      * inversion M1; subst.
        change (x :: s1 ++ s2) with ((x :: s1) ++ s2). constructor; auto.
      * change (x :: s) with ([] ++ x :: s).
        constructor; [now apply nullable_matches | auto].
    + inversion M; subst.
      change (x :: s1 ++ s2) with ((x :: s1) ++ s2). constructor; auto.
  - inversion M; subst; [apply MAltL | apply MAltR]; auto.
  - inversion M; subst.
    change (x :: s1 ++ s2) with ((x :: s1) ++ s2). constructor; auto.
Qed.

Lemma deriv_complete (r : regex) (l : list ascii) :
  matches r l -> forall x s, l = x :: s -> matches (deriv x r) s.
Proof.
  induction 1 as [ | c y E | y E | r1 r2 s1 s2 M1 IH1 M2 IH2
                 | r1 r2 s0 M IH | r1 r2 s0 M IH
                 | r | r s1 s2 M1 IH1 M2 IH2 ];
    intros x s L; simpl.
  - discriminate.
  - injection L as -> <-. rewrite E, Ascii.eqb_refl. constructor.
  - injection L as -> <-. rewrite E. constructor.
  - destruct s1 as [|y s1].
    + simpl in L. subst s2.
      rewrite (matches_nil_nullable r1 [] M1 eq_refl).
      apply MAltR. now apply IH2.
    + injection L as -> <-.
      assert (matches (Cat (deriv x r1) r2) (s1 ++ s2)) as C
        by (constructor; auto).
      destruct (nullable r1); [now apply MAltL | assumption].
  - apply MAltL. now apply IH.
  - apply MAltR. now apply IH.
  - discriminate.
  - destruct s1 as [|y s1].
    + simpl in L. now apply IH2.
    + injection L as -> <-. constructor; auto.
Qed.

Lemma deriv_spec (x : ascii) (r : regex) (s : list ascii) :
  matches (deriv x r) s <-> matches r (x :: s).
Proof.
  split; [apply deriv_sound|].
  intros M. now apply (deriv_complete r (x :: s)).
Qed.

(** The matcher decides the pattern. *)
Lemma accepts_spec (s : list ascii) : forall r,
  accepts r s = true <-> matches r s.
Proof.
  induction s as [|x s IH]; intros r; simpl.
  - apply nullable_spec.
  - rewrite IH. apply deriv_spec.
Qed.

(** ** The pattern of the cover image, spelled out *)

Lemma matches_Cat (r1 r2 : regex) (s : list ascii) :
  matches (Cat r1 r2) s
  <-> exists s1 s2, s = s1 ++ s2 /\ matches r1 s1 /\ matches r2 s2.
Proof.
  split.
  - intros M. inversion M; subst. eauto.
  - intros (s1 & s2 & -> & M1 & M2). now constructor.
Qed.

Lemma matches_Alt (r1 r2 : regex) (s : list ascii) :
  matches (Alt r1 r2) s <-> matches r1 s \/ matches r2 s.
Proof.
  split.
  - intros M. inversion M; subst; auto.
  - intros [M|M]; [apply MAltL | apply MAltR]; assumption.
Qed.

Lemma matches_Lit (c : ascii) (s : list ascii) :
  matches (Lit c) s <-> exists x, s = [x] /\ canonicalize x = canonicalize c.
Proof.
  split.
  - intros M. inversion M; subst. eauto.
  - intros (x & -> & E). now constructor.
Qed.

Lemma matches_Eps (s : list ascii) : matches Eps s <-> s = [].
Proof.
  split; [intros M; now inversion M | intros ->; constructor].
Qed.

Lemma matches_Word (w : string) : forall s, matches (Word w) s <-> spells s w.
Proof.
  unfold spells.
  induction w as [|c w IH]; intros s; simpl.
  - rewrite matches_Eps. split; [now intros -> | apply map_eq_nil].
  - rewrite matches_Cat. split.
    + intros (s1 & s2 & -> & M1 & M2).
      apply matches_Lit in M1. destruct M1 as (x & -> & E).
      apply IH in M2. simpl. now rewrite E, M2.
    + intros E. destruct s as [|x s]; [discriminate|].
      simpl in E. injection E as E1 E2.
      exists [x], s. repeat split.
      * apply matches_Lit; eauto.
      * now apply IH.
Qed.

Lemma matches_Star_Dot (s : list ascii) : matches (Star Dot) s <-> oneLine s.
Proof.
  unfold oneLine. split.
  - intros M. remember (Star Dot) as r eqn:R.
    induction M; try discriminate; [constructor|].
    injection R as ->. inversion M1; subst.
    constructor; [assumption | auto].
  - induction 1 as [|x s L _ IH]; [constructor|].
    change (x :: s) with ([x] ++ s). constructor; [now constructor | assumption].
Qed.

Lemma matches_Plus_Dot (s : list ascii) :
  matches (Plus Dot) s <-> s <> [] /\ oneLine s.
Proof.
  unfold Plus. rewrite matches_Cat. split.
  - intros (s1 & s2 & -> & M1 & M2). inversion M1; subst.
    apply matches_Star_Dot in M2.
    split; [discriminate | constructor; assumption].
  - intros [NE L]. destruct s as [|x s]; [congruence|].
    inversion L; subst. exists [x], s. repeat split.
    + now constructor.
    + now apply matches_Star_Dot.
Qed.

Lemma spells_snoc (s : list ascii) (w : string) (x c : ascii) :
  spells s w -> canonicalize x = canonicalize c ->
  spells (s ++ [x]) (w ++ String c "").
Proof.
  unfold spells. intros E Ex.
  rewrite map_app, E. simpl. rewrite Ex. clear.
  induction w as [|d w IH]; simpl; [reflexivity | now rewrite IH].
Qed.

Lemma spells_snoc_inv (s : list ascii) (w : string) (c : ascii) :
  spells s (w ++ String c "") ->
  exists s' x, s = s' ++ [x] /\ spells s' w /\ canonicalize x = canonicalize c.
Proof.
  unfold spells. revert s.
  induction w as [|d w IH]; intros s E; simpl in E.
  - destruct s as [|x [|y s]]; try discriminate.
    injection E as E. exists [], x. auto.
  - destruct s as [|y s]; [discriminate|]. simpl in E. injection E as E1 E2.
    destruct (IH s E2) as (s' & x & -> & E' & Ex).
    exists (y :: s'), x. repeat split; [|assumption]. simpl. now rewrite E1, E'.
Qed.

(** A character that is not a letter is matched by itself alone. *)
Lemma canonicalize_symbol (y : ascii) (k : nat) :
  k < 65 \/ 90 < k < 97 \/ 122 < k -> k < 256 ->
  canonicalize y = canonicalize (ascii_of_nat k) -> y = ascii_of_nat k.
Proof.
  intros Hk Hk'. unfold canonicalize.
  rewrite (nat_ascii_embedding k) by assumption.
  pose proof (nat_ascii_bounded y) as By.
  assert ((97 <=? k) && (k <=? 122) = false) as ->.
  { destruct (Nat.leb_spec 97 k), (Nat.leb_spec k 122); (reflexivity || lia). }
  destruct (Nat.leb_spec 97 (nat_of_ascii y)) as [L1|L1];
    [destruct (Nat.leb_spec (nat_of_ascii y) 122) as [L2|L2]|];
    cbn [andb]; intros E; try exact E.
  exfalso. apply (f_equal nat_of_ascii) in E.
  rewrite !nat_ascii_embedding in E by lia. lia.
Qed.

(** An input matches the pattern of the cover image exactly when it is a
    scheme [http] or [https], then [://], then one or more characters on one
    line, then a dot and one of the five extensions, letters in any case. *)
Lemma coverImagePattern_spec (s : list ascii) :
  matches coverImagePattern s
  <-> exists scheme body ext,
        s = scheme ++ list_ascii_of_string "://" ++ body
              ++ list_ascii_of_string "." ++ ext
        /\ (spells scheme "http" \/ spells scheme "https")
        /\ body <> [] /\ oneLine body
        /\ (spells ext "jpg" \/ spells ext "jpeg" \/ spells ext "png"
             \/ spells ext "gif" \/ spells ext "webp").
Proof.
  unfold coverImagePattern, Opt. split.
  - intros M.
    apply matches_Cat in M. destruct M as (h & r1 & -> & Hh & M).
    apply matches_Cat in M. destruct M as (o & r2 & -> & Ho & M).
    apply matches_Cat in M. destruct M as (c & r3 & -> & Hc & M).
    apply matches_Cat in M. destruct M as (body & r4 & -> & Hb & M).
    apply matches_Cat in M. destruct M as (d & ext & -> & Hd & He).
    apply matches_Word in Hh, Hc. apply matches_Plus_Dot in Hb.
    destruct Hb as [NE L].
    pose proof canonicalize_symbol as Fix.
    apply matches_Lit in Hd. destruct Hd as (x & -> & Ex).
    apply (Fix x 46) in Ex; [|lia|lia]. subst x.
    assert (c = list_ascii_of_string "://") as ->.
    { unfold spells in Hc. destruct c as [|a [|b [|e [|? ?]]]]; try discriminate.
      simpl in Hc. injection Hc as Ea Eb Ee.
      apply (Fix a 58) in Ea; [|lia|lia].
      apply (Fix b 47) in Eb; [|lia|lia].
      apply (Fix e 47) in Ee; [|lia|lia].
      now subst. }
    assert (spells ext "jpg" \/ spells ext "jpeg" \/ spells ext "png"
            \/ spells ext "gif" \/ spells ext "webp") as He'.
    { repeat (apply matches_Alt in He; destruct He as [He|He];
              [apply matches_Word in He; tauto|]).
      apply matches_Word in He. tauto. }
    apply matches_Alt in Ho. destruct Ho as [Ho|Ho].
    + apply matches_Lit in Ho. destruct Ho as (y & -> & Ey).
      exists (h ++ [y]), body, ext. repeat split; try assumption.
      * now rewrite <- !app_assoc.
      * right. now apply (spells_snoc h "http" y "s").
    + apply matches_Eps in Ho. subst o.
      exists h, body, ext. repeat split; auto.
  - intros (scheme & body & ext & -> & Hs & NE & L & He).
    assert (matches (Cat (Plus Dot)
                      (Cat (Lit ".")
                        (Alt (Word "jpg")
                          (Alt (Word "jpeg")
                            (Alt (Word "png")
                              (Alt (Word "gif") (Word "webp")))))))
                    (body ++ list_ascii_of_string "." ++ ext)) as Tail.
    { constructor; [now apply matches_Plus_Dot|].
      constructor; [now constructor|].
      destruct He as [He|[He|[He|[He|He]]]]; apply matches_Word in He.
      - now apply MAltL.
      - now apply MAltR, MAltL.
      - now apply MAltR, MAltR, MAltL.
      - now apply MAltR, MAltR, MAltR, MAltL.
      - now apply MAltR, MAltR, MAltR, MAltR. }
    assert (matches (Cat (Word "://") (Cat (Plus Dot)
                      (Cat (Lit ".")
                        (Alt (Word "jpg")
                          (Alt (Word "jpeg")
                            (Alt (Word "png")
                              (Alt (Word "gif") (Word "webp"))))))))
                    (list_ascii_of_string "://" ++ body
                       ++ list_ascii_of_string "." ++ ext)) as Tail2.
    { constructor; [|exact Tail]. now apply matches_Word. }
    destruct Hs as [Hs|Hs].
    + constructor; [now apply matches_Word|].
      change (list_ascii_of_string "://" ++ body
                ++ list_ascii_of_string "." ++ ext)
        with ([] ++ list_ascii_of_string "://" ++ body
                ++ list_ascii_of_string "." ++ ext).
      constructor; [apply MAltR; constructor | exact Tail2].
    + apply (spells_snoc_inv scheme "http" "s") in Hs.
      destruct Hs as (h & y & -> & Hh & Ey).
      rewrite <- app_assoc.
      constructor; [now apply matches_Word|].
      constructor; [apply MAltL; now constructor | exact Tail2].
Qed.

(** C8. The cover-image validator accepts a non-empty value if and only if
    the value matches [^https?://.+\.(jpg|jpeg|png|gif|webp)$] without
    regard to case, that is, if and only if it is [http] or [https], then
    [://], then one or more characters on one line, then a dot and one of
    the five extensions.  "http://x.com/img.PNG" is accepted and
    "http://x.com/img.bmp" is rejected; the empty value is accepted, and an
    absent cover image raises no validation message. *)
Theorem C8_cover_image_validator :
  (forall v : string,
      v <> "" ->
      (coverImageValidator v = true
       <-> matches coverImagePattern (list_ascii_of_string v))
      /\ (coverImageValidator v = true
          <-> exists scheme body ext,
                list_ascii_of_string v
                = scheme ++ list_ascii_of_string "://" ++ body
                    ++ list_ascii_of_string "." ++ ext
                /\ (spells scheme "http" \/ spells scheme "https")
                /\ body <> [] /\ oneLine body
                /\ (spells ext "jpg" \/ spells ext "jpeg" \/ spells ext "png"
                     \/ spells ext "gif" \/ spells ext "webp")))
  /\ coverImageValidator "http://x.com/img.PNG" = true
  /\ coverImageValidator "http://x.com/img.bmp" = false
  /\ coverImageValidator "" = true
  /\ validateCoverImage None = []
  /\ (forall v : string,
        validateCoverImage (Some v) = [] <-> coverImageValidator v = true).
Proof.
  split; [|repeat split; try reflexivity].
  - intros v NE.
    assert (coverImageValidator v = true
            <-> matches coverImagePattern (list_ascii_of_string v)) as A.
    { unfold coverImageValidator, test. destruct v; [congruence|].
      simpl negb. cbv iota. apply accepts_spec. }
    split; [exact A|].
    rewrite A. apply coverImagePattern_spec.
  - unfold validateCoverImage.
    destruct (coverImageValidator v); [reflexivity | discriminate].
  - unfold validateCoverImage. intros ->. reflexivity.
Qed.

Lemma C8_cover_image_validator_witness :
  "http://x.com/img.PNG" <> ""
  /\ (coverImageValidator "http://x.com/img.PNG" = true
      <-> matches coverImagePattern (list_ascii_of_string "http://x.com/img.PNG")).
Proof.
  split; [discriminate|].
  apply (proj1 C8_cover_image_validator "http://x.com/img.PNG"). discriminate.
Defined.

(* ================================================================== *)
(** * Tag normalisation *)

Lemma split_not_nil (sep : ascii) (s : string) : split sep s <> [].
Proof.
  destruct s as [|c s]; simpl; [discriminate|].
  destruct (Ascii.eqb c sep); [discriminate|].
  destruct (split sep s); discriminate.
Qed.

Lemma join_cons (sep p : string) (rest : list string) :
  rest <> [] -> join sep (p :: rest) = (p ++ sep ++ join sep rest)%string.
Proof. destruct rest; [congruence | reflexivity]. Qed.

(** Joining the pieces with the separator gives the string back. *)
Lemma join_split (sep : ascii) (s : string) :
  join (String sep "") (split sep s) = s.
Proof.
  induction s as [|c s IH]; [reflexivity|]. simpl split.
  destruct (Ascii.eqb_spec c sep) as [->|D].
  - rewrite join_cons by apply split_not_nil. simpl. now rewrite IH.
  - pose proof (split_not_nil sep s) as NN.
    destruct (split sep s) as [|piece rest]; [congruence|].
    destruct rest as [|q rest].
    + simpl in *. now rewrite IH.
    + rewrite join_cons by discriminate.
      rewrite join_cons in IH by discriminate.
      transitivity (String c (piece ++ String sep "" ++
                                join (String sep "") (q :: rest))%string);
        [reflexivity | now rewrite IH].
Qed.

(** No piece contains the separator. *)
Lemma split_pieces (sep : ascii) (s : string) :
  Forall (fun piece => ~ In sep (list_ascii_of_string piece)) (split sep s).
Proof.
  induction s as [|c s IH]; simpl.
  - constructor; [intros [] | constructor].
  - destruct (Ascii.eqb_spec c sep) as [->|D].
    + constructor; [intros [] | assumption].
    + destruct (split sep s) as [|piece rest];
        [constructor; [simpl; intuition | constructor]|].
      inversion IH; subst. constructor; [|assumption].
      simpl. intuition.
Qed.

Lemma trimAndDropEmpty_clean (entries : list string) :
  Forall (fun tag => tag <> "" /\ trim tag = tag) (trimAndDropEmpty entries).
Proof.
  unfold trimAndDropEmpty. apply Forall_forall. intros tag I.
  apply filter_In in I. destruct I as [I T].
  apply in_map_iff in I. destruct I as (e & <- & _).
  split; [|apply trim_idempotent].
  intros E. rewrite E in T. discriminate.
Qed.

(** Every normalised tag is trimmed and not empty. *)
Lemma processTags_clean (tags : option TagsInput) :
  Forall (fun tag => tag <> "" /\ trim tag = tag) (processTags tags).
Proof.
  unfold processTags. destruct (truthyTags tags); [|constructor].
  destruct tags as [[entries|s]|];
    [apply trimAndDropEmpty_clean | apply trimAndDropEmpty_clean | constructor].
Qed.

(** The [trim: true] setter of the tags does nothing to normalised tags. *)
Lemma map_trim_processTags (tags : option TagsInput) :
  map trim (processTags tags) = processTags tags.
Proof.
  pose proof (processTags_clean tags) as C.
  induction C as [|tag l [_ T] _ IH]; simpl; [reflexivity | now rewrite T, IH].
Qed.


(** C7. Tag normalisation takes an array of strings or one comma-separated
    string; the string is split at its commas (the pieces contain no comma
    and joined with commas give the string back); every entry is trimmed,
    entries that become empty are dropped and the order is kept: the result
    is the list of the trimmed entries filtered for non-empty ones.
    "a, b ,, c" yields ["a","b","c"] and ["a","","b "] yields ["a","b"]. *)
Theorem C7_tag_normalization :
  processTags (Some (TagsString "a, b ,, c")) = ["a"; "b"; "c"]
  /\ processTags (Some (TagsArray ["a"; ""; "b "])) = ["a"; "b"]
  /\ (forall entries : list string,
        processTags (Some (TagsArray entries))
        = filter (fun tag => negb (String.eqb tag "")) (map trim entries))
  /\ (forall s : string,
        processTags (Some (TagsString s))
        = filter (fun tag => negb (String.eqb tag ""))
                 (map trim (split "," s))
        /\ join "," (split "," s) = s
        /\ Forall (fun piece => ~ In ","%char (list_ascii_of_string piece))
                  (split "," s))
  /\ (forall tags : option TagsInput,
        Forall (fun tag => tag <> "" /\ trim tag = tag) (processTags tags))
  /\ processTags None = [].
Proof.
  assert (forall l, filter truthy l
                    = filter (fun tag => negb (String.eqb tag "")) l) as F.
  { intros l. apply filter_ext. intros [|c s]; reflexivity. }
  repeat split; try reflexivity.
  - intros entries. unfold processTags, trimAndDropEmpty. simpl. apply F.
  - destruct s as [|c s]; [reflexivity|].
    unfold processTags, trimAndDropEmpty. cbn [truthyTags truthy]. apply F.
  - apply join_split.
  - apply split_pieces.
  - apply processTags_clean.
Qed.

(* ================================================================== *)
(** * Updating a post *)

Section Updating.
Context `{Deps}.

Lemma updatePost_malformed now id b st :
  castObjectId id = None ->
  updatePost now id b st
  = (mkResponse 400 (JsonError "Invalid post ID format"), st).
Proof. intros C. unfold updatePost. now rewrite C. Qed.

(** A body that fails validation is refused before the look-up. *)
Lemma updatePost_refused now id oid b st message :
  castObjectId id = Some oid ->
  bodyError now b = Some message ->
  updatePost now id b st = (mkResponse 400 (JsonError message), st).
Proof.
  intros C. unfold updatePost, bodyError, findByIdAndUpdate. rewrite C.
  destruct (checkInput b) as [m|[t c]]; [now intros [= ->]|].
  destruct (validateUpdate _); [discriminate | now intros [= <-]].
Qed.

Lemma updatePost_missing now id oid b st :
  castObjectId id = Some oid ->
  bodyError now b = None ->
  findById (posts st) oid = None ->
  updatePost now id b st = (mkResponse 404 (JsonError "Post not found"), st).
Proof.
  intros C B F. unfold updatePost, bodyError, findByIdAndUpdate in *.
  rewrite C. destruct (checkInput b) as [m|[t c]]; [discriminate|].
  destruct (validateUpdate _); [|discriminate]. now rewrite F.
Qed.

Lemma updatePost_found now id oid b st d :
  castObjectId id = Some oid ->
  bodyError now b = None ->
  findById (posts st) oid = Some d ->
  exists title content,
    checkInput b = inr (title, content)
    /\ let d' := applyUpdate (castUpdate now (updateOf now b title content)) d in
       updatePost now id b st
       = (mkResponse 200 (JsonPost d'),
          mkStore (replaceById oid d' (posts st)) (nextId st)).
Proof.
  intros C B F. unfold updatePost, bodyError, findByIdAndUpdate in *.
  rewrite C. destruct (checkInput b) as [m|[t c]]; [discriminate|].
  exists t, c. split; [reflexivity|].
  destruct (validateUpdate _); [|discriminate]. now rewrite F.
Qed.

Lemma findById_id ps oid d : findById ps oid = Some d -> Post._id d = oid.
Proof.
  unfold findById. intros F. apply find_some in F.
  now apply N.eqb_eq.
Qed.


End Updating.

(** C9, as the code has it.  For get-by-id, update and delete: an id that is
    not an [ObjectId] fails with status 400.  For get-by-id and delete, a
    well-formed id that matches no stored post fails with 404 and the id of
    a stored post succeeds with 200.  For update the request body is
    validated before the store is asked: with a well-formed id the status
    is 400 when the body fails validation, whether or not the post exists,
    and otherwise 404 for an unknown id and 200 for the id of a stored
    post. *)
Theorem C9_id_status `{Deps} (id : string) (st : Store) :
  (isValid id = false ->
     status (getPost id st) = 400
     /\ status (fst (deletePost id st)) = 400
     /\ forall now b, status (fst (updatePost now id b st)) = 400)
  /\ (forall oid, castObjectId id = Some oid ->
        isValid id = true
        /\ (findById (posts st) oid = None ->
              status (getPost id st) = 404
              /\ status (fst (deletePost id st)) = 404
              /\ forall now b,
                   status (fst (updatePost now id b st))
                   = match bodyError now b with None => 404 | Some _ => 400 end)
        /\ (forall d, findById (posts st) oid = Some d ->
              status (getPost id st) = 200
              /\ status (fst (deletePost id st)) = 200
              /\ forall now b,
                   status (fst (updatePost now id b st))
                   = match bodyError now b with None => 200 | Some _ => 400 end)).
Proof.
  split.
  - unfold isValid. destruct (castObjectId id) as [oid|] eqn:C; [discriminate|].
    intros _. unfold getPost, deletePost. rewrite C. repeat split.
    intros now b. now rewrite updatePost_malformed.
  - intros oid C. unfold isValid, getPost, deletePost. rewrite C.
    split; [reflexivity|]. split.
    + intros F. rewrite F. repeat split. intros now b.
      destruct (bodyError now b) as [m|] eqn:B.
      * now rewrite (updatePost_refused _ _ _ _ _ _ C B).
      * now rewrite (updatePost_missing _ _ _ _ _ C B F).
    + intros d F. rewrite F. repeat split. intros now b.
      destruct (bodyError now b) as [m|] eqn:B.
      * now rewrite (updatePost_refused _ _ _ _ _ _ C B).
      * destruct (updatePost_found _ _ _ _ _ _ C B F) as (t & c & _ & E).
        cbv zeta in E. now rewrite E.
Qed.

Lemma C9_id_status_witness :
  (isValid (H := asciiDeps) "not-an-id" = false
   /\ status (getPost (H := asciiDeps) "not-an-id" helloStore) = 400)
  /\ (castObjectId (Deps := asciiDeps) "000000000000000000000001" = Some 1%N
      /\ findById (posts helloStore) 1%N = None
      /\ status (fst (deletePost (H := asciiDeps) "000000000000000000000001"
                                 helloStore)) = 404)
  /\ (castObjectId (Deps := asciiDeps) "000000000000000000000000" = Some 0%N
      /\ (exists d, findById (posts helloStore) 0%N = Some d)
      /\ status (getPost (H := asciiDeps) "000000000000000000000000"
                         helloStore) = 200).
Proof.
  split; [|split].
  - split; [reflexivity|].
    apply (proj1 (C9_id_status (H := asciiDeps) "not-an-id" helloStore)).
    reflexivity.
  - split; [reflexivity|]. split; [reflexivity|].
    apply (proj1 (proj2 (proj2 (C9_id_status (H := asciiDeps)
                                  "000000000000000000000001" helloStore)
                               1%N eq_refl))).
    reflexivity.
  - split; [reflexivity|]. split; [eexists; reflexivity|].
    eapply (proj2 (proj2 (proj2 (C9_id_status (H := asciiDeps)
                                   "000000000000000000000000" helloStore)
                                0%N eq_refl))).
    reflexivity.
Defined.

(** An update with a well-formed id that matches no post and a body without
    title is answered with 400, not 404. *)
Lemma C9_unknown_id_invalid_body :
  isValid (H := asciiDeps) "000000000000000000000001" = true
  /\ castObjectId (Deps := asciiDeps) "000000000000000000000001" = Some 1%N
  /\ findById (posts helloStore) 1%N = None
  /\ status (fst (updatePost (H := asciiDeps) 2%N "000000000000000000000001"
                             (Body.mk None (Some "Second content") None None None)
                             helloStore)) = 400
  /\ status (fst (updatePost (H := asciiDeps) 2%N "000000000000000000000001"
                             (Body.mk None (Some "Second content") None None None)
                             helloStore)) <> 404.
Proof. repeat split; try reflexivity. vm_compute. discriminate. Qed.

(* ================================================================== *)
(** * The slug on update *)

(** The [pre('validate')] hook of a stored document (title and slug set)
    recomputes the slug exactly when the title was modified: then the slug
    is the first candidate of the new title that no other post carries. *)
Lemma preValidate_recomputes_iff_modified `{Deps} ps now modified this :
  truthy (Post.title this) = true ->
  truthy (Post.slug this) = true ->
  exists d,
    preValidate ps now modified this = Some d
    /\ (modified = false -> Post.slug d = Post.slug this)
    /\ (modified = true ->
          exists m,
            Post.slug d = candidate (slugify (Post.title this)) m
            /\ taken ps (Post._id this) (Post.slug d) = false
            /\ forall j, j < m ->
                 taken ps (Post._id this)
                       (candidate (slugify (Post.title this)) j) = true).
Proof.
  intros T S. unfold preValidate. rewrite T, S. cbn [negb orb andb].
  destruct modified.
  - destruct (probe_total ps (Post._id this) (slugify (Post.title this)))
      as (m & Hm & Free & Busy & Run).
    unfold uniqueSlug. rewrite Run by lia.
    eexists. split; [reflexivity|]. split; [discriminate|].
    intros _. exists m. cbn [Post.slug Post.set_slug Post.set_updatedAt]. auto.
  - eexists. split; [reflexivity|]. split; [reflexivity | discriminate].
Qed.

(** C2, evaluated on the code.  The post titled "Hello World" with slug
    "hello-world" is updated through the route with the title
    "Goodbye Moon": the update succeeds, the stored title is the new one and
    the slug is still "hello-world", not the slug "goodbye-moon" of the new
    title. *)
Theorem C2_update_keeps_slug_on_title_change :
  exists old new,
    posts helloStore = [old]
    /\ Post.title old = "Hello World"
    /\ Post.slug old = "hello-world"
    /\ updatePost (H := asciiDeps) 2%N "000000000000000000000000"
                  (plainBody "Goodbye Moon" "Second content") helloStore
       = (mkResponse 200 (JsonPost new), mkStore [new] (nextId helloStore))
    /\ Post.title new = "Goodbye Moon"
    /\ Post.slug new = "hello-world"
    /\ slugify (Deps := asciiDeps) (Post.title new) = "goodbye-moon".
Proof. eexists. eexists. repeat split. Qed.

(* ================================================================== *)
(** * Stored tags *)




(* ================================================================== *)
(** * Length limits of title and content *)

Lemma trim_empty_length (s : string) :
  0 < String.length (trim s) -> truthy s = true.
Proof. destruct s; simpl; [lia | reflexivity]. Qed.

(** The handler's checks pass exactly the bodies with a title of at least 3
    and a content of at least 10 characters after trimming. *)
Lemma checkInput_accepts (b : Body.t) (t c : string) :
  Body.title b = Some t -> Body.content b = Some c ->
  3 <= String.length (trim t) -> 10 <= String.length (trim c) ->
  checkInput b = inr (t, c).
Proof.
  intros Tb Cb Lt Lc. unfold checkInput. rewrite Tb, Cb.
  rewrite (trim_empty_length t), (trim_empty_length c) by lia.
  cbn [negb orb].
  destruct (Nat.ltb_spec (String.length (trim t)) 3); [lia|].
  destruct (Nat.ltb_spec (String.length (trim c)) 10); [lia|].
  reflexivity.
Qed.

Lemma checkInput_rejects (b : Body.t) (t c : string) :
  Body.title b = Some t -> Body.content b = Some c ->
  String.length (trim t) < 3 \/ String.length (trim c) < 10 ->
  exists message, checkInput b = inl message.
Proof.
  intros Tb Cb L. unfold checkInput. rewrite Tb, Cb.
  destruct (negb (truthy t) || negb (truthy c)); [eauto|].
  destruct (Nat.ltb_spec (String.length (trim t)) 3); [eauto|].
  destruct (Nat.ltb_spec (String.length (trim c)) 10); [eauto|].
  lia.
Qed.

Section Accepting.
Context `{Deps}.

(** Both routes answer a body that fails the checks with 400 and leave
    the store as it is. *)
Lemma createPost_rejected now b st message :
  checkInput b = inl message ->
  createPost now b st = Some (mkResponse 400 (JsonError message), st).
Proof. intros C. unfold createPost. now rewrite C. Qed.

Lemma updatePost_rejected now id b st message :
  checkInput b = inl message ->
  status (fst (updatePost now id b st)) = 400
  /\ snd (updatePost now id b st) = st.
Proof.
  intros C. unfold updatePost. rewrite C.
  destruct (castObjectId id); split; reflexivity.
Qed.

Lemma candidate_not_empty base m : base <> "" -> candidate base m <> "".
Proof.
  intros NE. destruct m; simpl; [assumption|].
  unfold suffixed. intros E. apply (f_equal String.length) in E.
  rewrite length_append in E. simpl in E. lia.
Qed.

(** A body with a title and a content alone is stored when its lengths
    are in range and the title has a slug. *)
Lemma createPost_plain now t c st :
  3 <= String.length (trim t) <= 200 ->
  10 <= String.length (trim c) ->
  slugify (trim t) <> "" ->
  wellFormed st ->
  exists p st',
    createPost now (plainBody t c) st
    = Some (mkResponse 201 (JsonPost p), st').
Proof.
  intros Lt Lc Slug (Ids & _ & _).
  unfold createPost.
  rewrite (checkInput_accepts (plainBody t c) t c) by (reflexivity || lia).
  unfold save, preValidate, newPost.
  cbn [Post.title Post.slug Post._id truthy negb orb andb plainBody
       Body.excerpt Body.coverImage Body.tags trimIfTruthy option_map
       processTags truthyTags map].
  rewrite !trim_idempotent.
  assert (truthy (trim t) = true) as Tt by (apply truthy_length; lia).
  assert (truthy (trim c) = true) as Tc by (apply truthy_length; lia).
  rewrite Tt. cbn [andb].
  destruct (probe_total (posts st) (nextId st) (slugify (trim t)))
    as (m & Hm & Free & _ & Run).
  unfold uniqueSlug. rewrite Run by lia.
  pose proof (candidate_not_empty _ m Slug) as NE.
  assert (truthy (candidate (slugify (trim t)) m) = true) as Ts.
  { destruct (candidate (slugify (trim t)) m); [congruence | reflexivity]. }
  unfold validateDoc, requiredString, maxlength.
  cbn [Post.title Post.slug Post.content Post.excerpt Post.coverImage
       Post.tags Post.set_slug Post.set_updatedAt maxlengthOpt
       validateCoverImage validateTags flat_map].
  rewrite Tt, Tc, Ts.
  destruct (Nat.leb_spec (String.length (trim t)) 200); [|lia].
  cbn [app].
  unfold insertOne, preSave.
  cbn [Post.slug Post._id Post.set_slug Post.set_updatedAt].
  destruct (existsb _ (posts st)) eqn:E; [exfalso | eauto].
  apply existsb_exists in E. destruct E as (p & I & E).
  apply orb_prop in E. destruct E as [E|E].
  - apply String.eqb_eq in E.
    assert (taken (posts st) (nextId st) (candidate (slugify (trim t)) m)
            = true) as T; [|congruence].
    apply taken_spec. exists p. repeat split; [assumption | assumption |].
    apply Ids in I. lia.
  - apply N.eqb_eq in E. apply Ids in I. lia.
Qed.

Lemma bodyError_plain now t c :
  3 <= String.length (trim t) <= 200 ->
  10 <= String.length (trim c) ->
  bodyError now (plainBody t c) = None.
Proof.
  intros Lt Lc. unfold bodyError.
  rewrite (checkInput_accepts (plainBody t c) t c) by (reflexivity || lia).
  unfold validateUpdate, castUpdate, updateOf, requiredString, maxlength.
  cbn [Update.title Update.content Update.excerpt Update.coverImage
       Update.tags plainBody Body.excerpt Body.coverImage Body.tags
       trimIfTruthy option_map processTags truthyTags map maxlengthOpt
       validateCoverImage validateTags flat_map].
  rewrite !trim_idempotent.
  assert (truthy (trim t) = true) as Tt by (apply truthy_length; lia).
  assert (truthy (trim c) = true) as Tc by (apply truthy_length; lia).
  rewrite Tt, Tc.
  destruct (Nat.leb_spec (String.length (trim t)) 200); [reflexivity | lia].
Qed.
End Accepting.

(** C6. For create and update requests, a title of exactly 3 characters
    after trimming passes the checks (with a content that passes) and one of
    2 characters is refused; a content of exactly 10 characters after
    trimming passes (with a title that passes) and one of 9 is refused.  A refused body is answered with status 400 by both routes and
    changes nothing; a body of such a title and content alone is stored with
    status 201 by create (when the title has a slug) and with status 200 by
    an update of a stored post. *)
Theorem C6_length_boundaries `{Deps} (b : Body.t) (t c : string) :
  Body.title b = Some t ->
  Body.content b = Some c ->
  (String.length (trim t) = 3 -> 10 <= String.length (trim c) ->
     checkInput b = inr (t, c))
  /\ (3 <= String.length (trim t) -> String.length (trim c) = 10 ->
       checkInput b = inr (t, c))
  /\ (String.length (trim t) = 2 -> exists message, checkInput b = inl message)
  /\ (String.length (trim c) = 9 -> exists message, checkInput b = inl message)
  /\ (forall message, checkInput b = inl message ->
        forall now st,
          createPost now b st = Some (mkResponse 400 (JsonError message), st)
          /\ forall id,
               status (fst (updatePost now id b st)) = 400
               /\ snd (updatePost now id b st) = st)
  /\ (String.length (trim t) = 3 -> String.length (trim c) = 10 ->
      b = plainBody t c ->
      forall now st,
        (wellFormed st -> slugify (trim t) <> "" ->
           exists p st',
             createPost now b st = Some (mkResponse 201 (JsonPost p), st'))
        /\ (forall id oid d,
              castObjectId id = Some oid ->
              findById (posts st) oid = Some d ->
              status (fst (updatePost now id b st)) = 200)).
Proof.
  intros Tb Cb. repeat split.
  - intros Lt Lc. apply checkInput_accepts; (assumption || lia).
  - intros Lt Lc. apply checkInput_accepts; (assumption || lia).
  - intros Lt. apply (checkInput_rejects b t c Tb Cb). lia.
  - intros Lc. apply (checkInput_rejects b t c Tb Cb). lia.
  - now apply createPost_rejected.
  - now apply (updatePost_rejected now id b st message).
  - now apply (updatePost_rejected now id b st message).
  - subst b. intros W Slug. apply createPost_plain; (assumption || lia).
  - subst b. intros id oid d Cast F.
    assert (bodyError now (plainBody t c) = None) as B
      by (apply bodyError_plain; lia).
    destruct (updatePost_found _ _ _ _ _ _ Cast B F) as (t' & c' & _ & E).
    cbv zeta in E. now rewrite E.
Qed.

Lemma C6_length_boundaries_witness :
  Body.title (plainBody "abc" "0123456789") = Some "abc"
  /\ Body.content (plainBody "abc" "0123456789") = Some "0123456789"
  /\ String.length (trim "abc") = 3
  /\ 10 <= String.length (trim "0123456789")
  /\ checkInput (plainBody "abc" "0123456789") = inr ("abc", "0123456789").
Proof.
  do 3 (split; [reflexivity|]).
  split; [simpl; lia|].
  apply (proj1 (C6_length_boundaries (H := asciiDeps)
                  (plainBody "abc" "0123456789") "abc" "0123456789"
                  eq_refl eq_refl));
    [reflexivity | simpl; lia].
Defined.

(* ================================================================== *)
(** * Listing posts *)

(** C1, evaluated on the code.  For a list request with [limit=100] the
    limit handed to the store is capped at 50, but the [pagination.limit]
    of the response is 100; the number of skipped posts and the page count
    are computed from 100 as well, so that page 2 starts at post 100. *)
Theorem C1_limit_100_reported_uncapped `{QueryEngine}
  (page search tag : option string) (st : Store) :
  let listing := getPosts (Query.mk page (Some "100") search tag) st in
  limit (options listing) = Some 50%Z
  /\ option_map Pagination.limit (paginationOf (response listing))
     = Some (Some 100%Z)
  /\ option_map Pagination.limit (paginationOf (response listing))
     <> Some (Some 50%Z)
  /\ skip (options (getPosts (Query.mk (Some "2") (Some "100") search tag) st))
     = Some 100%Z
  /\ option_map Pagination.pages (paginationOf (response listing))
     = Some (ceilDiv (countDocuments (posts st) (query listing)) (Some 100%Z)).
Proof.
  cbv zeta. repeat split. discriminate.
Qed.

(* ================================================================== *)
(** * No two posts share a slug *)

Section Invariant.
Context `{Deps}.










End Invariant.

(* ================================================================== *)
(** * What a request to create a post does *)

Lemma option_map_trim_trimIfTruthy (v : option string) :
  option_map trim (trimIfTruthy v) = trimIfTruthy v.
Proof.
  destruct v as [s|]; [|reflexivity]. simpl.
  destruct (truthy s); [|reflexivity]. simpl. now rewrite trim_idempotent.
Qed.

Lemma flat_map_nil {A B : Type} (f : A -> list B) (l : list A) :
  flat_map f l = [] <-> Forall (fun x => f x = []) l.
Proof.
  induction l as [|x l IH]; simpl.
  - split; [constructor | reflexivity].
  - split.
    + intros E. apply app_eq_nil in E. destruct E as [E1 E2].
      constructor; [assumption | now apply IH].
    + intros F. inversion F as [|? ? E1 F']; subst.
      rewrite E1. now apply IH.
Qed.

Lemma app_nil_iff {A : Type} (l l' : list A) :
  l ++ l' = [] <-> l = [] /\ l' = [].
Proof.
  split; [apply app_eq_nil | now intros [-> ->]].
Qed.

Lemma requiredString_nil message v :
  requiredString message v = [] <-> v <> "".
Proof.
  unfold requiredString. destruct v; simpl; split;
    (congruence || discriminate || reflexivity || idtac).
Qed.

Lemma maxlength_nil n message v :
  maxlength n message v = [] <-> String.length v <= n.
Proof.
  unfold maxlength. destruct (Nat.leb_spec (String.length v) n); split;
    (reflexivity || discriminate || lia || auto).
Qed.

(** A document passes validation exactly when its paths are in their
    limits. *)
Lemma validateDoc_nil (d : Post.t) :
  validateDoc d = []
  <-> Post.title d <> "" /\ String.length (Post.title d) <= 200
      /\ Post.slug d <> "" /\ Post.content d <> ""
      /\ (forall e, Post.excerpt d = Some e -> String.length e <= 500)
      /\ (forall c, Post.coverImage d = Some c -> coverImageValidator c = true)
      /\ Forall (fun tag => String.length tag <= 50) (Post.tags d).
Proof.
  unfold validateDoc, validateTags.
  rewrite !app_nil_iff, !requiredString_nil, maxlength_nil, flat_map_nil.
  assert (maxlengthOpt 500 "Excerpt cannot exceed 500 characters" (Post.excerpt d)
          = [] <-> forall e, Post.excerpt d = Some e -> String.length e <= 500)
    as ->.
  { destruct (Post.excerpt d) as [e|]; simpl.
    - rewrite maxlength_nil. split; [now intros L ? [= <-] | auto].
    - split; [discriminate | reflexivity]. }
  assert (validateCoverImage (Post.coverImage d) = []
          <-> forall c, Post.coverImage d = Some c -> coverImageValidator c = true)
    as ->.
  { destruct (Post.coverImage d) as [c|]; simpl.
    - destruct (coverImageValidator c) eqn:V.
      + split; [now intros _ ? [= <-] | reflexivity].
      + split; [discriminate | intros A; specialize (A c eq_refl); congruence].
    - split; [discriminate | reflexivity]. }
  assert (Forall (fun x => maxlength 50 "Each tag cannot exceed 50 characters" x = [])
                 (Post.tags d)
          <-> Forall (fun tag => String.length tag <= 50) (Post.tags d)) as ->.
  { split; apply Forall_impl; intros tag; apply maxlength_nil. }
  tauto.
Qed.

Section Creating.
Context `{Deps}.

(** The document that [save] validates and inserts. *)
Lemma save_document now b t c id slug :
  preSave now
    (Post.set_updatedAt now
       (Post.set_slug slug
          (newPost id now (trim t) (trim c) (trimIfTruthy (Body.excerpt b))
                   (trimIfTruthy (Body.coverImage b))
                   (processTags (Body.tags b)))))
  = createdPost id now b t c slug.
Proof.
  unfold preSave, newPost, createdPost, Post.set_updatedAt, Post.set_slug.
  cbn [Post._id Post.title Post.slug Post.content Post.excerpt Post.tags
       Post.coverImage Post.createdAt Post.updatedAt].
  now rewrite trim_idempotent, !option_map_trim_trimIfTruthy,
    map_trim_processTags.
Qed.

(** The three ways in which [POST /] answers. *)
Lemma createPost_cases now b st r st' :
  createPost now b st = Some (r, st') ->
  (exists message,
      checkInput b = inl message
      /\ r = mkResponse 400 (JsonError message) /\ st' = st)
  \/ (exists t c m,
        checkInput b = inr (t, c)
        /\ m <= List.length (posts st)
        /\ taken (posts st) (nextId st) (candidate (slugify (trim t)) m) = false
        /\ (forall j, j < m ->
              taken (posts st) (nextId st) (candidate (slugify (trim t)) j)
              = true)
        /\ let p := createdPost (nextId st) now b t c
                                (candidate (slugify (trim t)) m) in
           (validateDoc p <> []
            /\ r = mkResponse 400 (JsonError (join ", " (validateDoc p)))
            /\ st' = mkStore (posts st) (N.succ (nextId st)))
           \/ (validateDoc p = []
               /\ insertOne p (posts st) = None
               /\ r = mkResponse 500 (JsonError "Failed to create post")
               /\ st' = mkStore (posts st) (N.succ (nextId st)))
           \/ (validateDoc p = []
               /\ insertOne p (posts st) = Some (posts st ++ [p])
               /\ r = mkResponse 201 (JsonPost p)
               /\ st' = mkStore (posts st ++ [p]) (N.succ (nextId st)))).
Proof.
  unfold createPost.
  destruct (checkInput b) as [message|[t c]] eqn:Chk.
  { intros [= <- <-]. left. eauto. }
  intros C. right. pose proof (checkInput_inr b t c Chk) as (_ & _ & Lt & _).
  destruct (probe_total (posts st) (nextId st) (slugify (trim t)))
    as (m & Hm & Free & Busy & Run).
  exists t, c, m.
  split; [reflexivity|]. split; [assumption|]. split; [assumption|].
  split; [assumption|]. cbv zeta.
  revert C. unfold save, preValidate.
  cbn [newPost Post.title Post.slug Post._id truthy negb orb].
  rewrite trim_idempotent.
  assert (truthy (trim t) = true) as -> by (apply truthy_length; lia).
  cbn [andb]. unfold uniqueSlug. rewrite Run by lia.
  pose proof (save_document now b t c (nextId st)
                (candidate (slugify (trim t)) m)) as Doc.
  unfold preSave in Doc.
  assert (forall d, validateDoc (Post.set_updatedAt now d) = validateDoc d) as V
    by reflexivity.
  rewrite <- (V (Post.set_updatedAt now _)), Doc.
  destruct (validateDoc _) as [|msg ms] eqn:Val.
  - unfold preSave. rewrite Doc.
    destruct (insertOne _ _) as [ps'|] eqn:I; intros [= <- <-].
    + right. right.
      assert (ps' = posts st ++ [createdPost (nextId st) now b t c
                                   (candidate (slugify (trim t)) m)]) as ->.
      { unfold insertOne in I. destruct (existsb _ _); [discriminate|].
        now injection I as <-. }
      auto.
    + right. left. auto.
  - intros [= <- <-]. left. split; [discriminate | auto].
Qed.

End Creating.






Lemma findById_app_old ps qs oid d :
  findById ps oid = Some d -> findById (ps ++ qs) oid = Some d.
Proof.
  unfold findById. induction ps as [|p ps IH]; simpl; [discriminate|].
  destruct (N.eqb (Post._id p) oid); auto.
Qed.

Lemma findById_app_new ps p :
  (forall q, In q ps -> Post._id q <> Post._id p) ->
  findById (ps ++ [p]) (Post._id p) = Some p.
Proof.
  unfold findById. induction ps as [|q ps IH]; intros Fresh; simpl.
  - now rewrite N.eqb_refl.
  - destruct (N.eqb_spec (Post._id q) (Post._id p)) as [E|_].
    + exfalso. apply (Fresh q); [now left | assumption].
    + apply IH. intros q' I. apply Fresh. now right.
Qed.

(** A response that carries a post comes with the post appended. *)
Lemma createPost_stored `{Deps} now b st r st' p :
  createPost now b st = Some (r, st') ->
  json r = JsonPost p ->
  status r = 201
  /\ Post._id p = nextId st
  /\ st' = mkStore (posts st ++ [p]) (N.succ (nextId st)).
Proof.
  intros C J.
  destruct (createPost_cases now b st r st' C)
    as [(message & _ & -> & _)|(t & c & m & _ & _ & _ & _ & Cases)];
    [discriminate|].
  cbv zeta in Cases.
  destruct Cases as [(_ & -> & _)|[(_ & _ & -> & _)|(_ & _ & -> & ->)]];
    try discriminate.
  injection J as <-. repeat split.
Qed.

(** X3. What was created can be read: in a well-formed collection, after a
    request to create was answered with 201, a get-by-id with the [_id] of
    the new post is answered with 200 and the same post, and every post that
    could be read before is read unchanged. *)
Theorem X3_create_then_get `{Deps} now b st r st' p id :
  wellFormed st ->
  createPost now b st = Some (r, st') ->
  json r = JsonPost p ->
  castObjectId id = Some (Post._id p) ->
  getPost id st' = mkResponse 200 (JsonPost p)
  /\ forall oid d, findById (posts st) oid = Some d ->
                   findById (posts st') oid = Some d.
Proof.
  intros W C J Cast.
  destruct (createPost_stored now b st r st' p C J) as (_ & Id & ->).
  split.
  - unfold getPost. rewrite Cast. cbn [posts].
    rewrite findById_app_new; [reflexivity|].
    intros q I. destruct W as (Ids & _). apply Ids in I. rewrite Id. lia.
  - intros oid d F. cbn [posts]. now apply findById_app_old.
Qed.

Lemma X3_create_then_get_witness :
  exists r st' p,
    wellFormed helloStore
    /\ createPost (H := asciiDeps) 2%N (plainBody "Hello World" "Second content")
                  helloStore = Some (r, st')
    /\ json r = JsonPost p
    /\ castObjectId (Deps := asciiDeps) "000000000000000000000001"
       = Some (Post._id p)
    /\ getPost (H := asciiDeps) "000000000000000000000001" st'
       = mkResponse 200 (JsonPost p).
Proof.
  assert (wellFormed helloStore) as W.
  { split; [intros p [<-|[]]; vm_compute; reflexivity|].
    split; vm_compute; (constructor; [intros []|constructor]). }
  eexists. eexists. eexists.
  split; [exact W|]. split; [vm_compute; reflexivity|].
  split; [reflexivity|]. split; [reflexivity|].
  refine (proj1 (X3_create_then_get (H := asciiDeps) 2%N
                   (plainBody "Hello World" "Second content") helloStore
                   _ _ _ "000000000000000000000001" W _ _ _));
    reflexivity.
Defined.



(* ================================================================== *)
(** * What a request to update a post does *)

Lemma castUpdate_updateOf now b t c :
  castUpdate now (updateOf now b t c) = updateOf now b t c.
Proof.
  unfold castUpdate, updateOf.
  cbn [Update.title Update.content Update.excerpt Update.coverImage Update.tags].
  now rewrite trim_idempotent, !option_map_trim_trimIfTruthy,
    map_trim_processTags.
Qed.

(** An update passes the update validators exactly when its paths are in
    their limits. *)
Lemma validateUpdate_nil (u : Update.t) :
  validateUpdate u = []
  <-> Update.title u <> "" /\ String.length (Update.title u) <= 200
      /\ Update.content u <> ""
      /\ (forall e, Update.excerpt u = Some e -> String.length e <= 500)
      /\ (forall c, Update.coverImage u = Some c -> coverImageValidator c = true)
      /\ Forall (fun tag => String.length tag <= 50) (Update.tags u).
Proof.
  unfold validateUpdate, validateTags.
  rewrite !app_nil_iff, !requiredString_nil, maxlength_nil, flat_map_nil.
  assert (maxlengthOpt 500 "Excerpt cannot exceed 500 characters" (Update.excerpt u)
          = [] <-> forall e, Update.excerpt u = Some e -> String.length e <= 500)
    as ->.
  { destruct (Update.excerpt u) as [e|]; simpl.
    - rewrite maxlength_nil. split; [now intros L ? [= <-] | auto].
    - split; [discriminate | reflexivity]. }
  assert (validateCoverImage (Update.coverImage u) = []
          <-> forall c, Update.coverImage u = Some c
                        -> coverImageValidator c = true) as ->.
  { destruct (Update.coverImage u) as [c|]; simpl.
    - destruct (coverImageValidator c) eqn:V.
      + split; [now intros _ ? [= <-] | reflexivity].
      + split; [discriminate | intros A; specialize (A c eq_refl); congruence].
    - split; [discriminate | reflexivity]. }
  assert (Forall (fun x => maxlength 50 "Each tag cannot exceed 50 characters" x = [])
                 (Update.tags u)
          <-> Forall (fun tag => String.length tag <= 50) (Update.tags u)) as ->.
  { split; apply Forall_impl; intros tag; apply maxlength_nil. }
  tauto.
Qed.

Lemma findById_replaceById_same oid d d' ps :
  findById ps oid = Some d -> Post._id d' = oid ->
  findById (replaceById oid d' ps) oid = Some d'.
Proof.
  unfold findById. intros F Id.
  induction ps as [|p ps IH]; simpl in *; [discriminate|].
  destruct (N.eqb (Post._id p) oid) eqn:E; simpl.
  - now rewrite Id, N.eqb_refl.
  - rewrite E. auto.
Qed.

Lemma findById_replaceById_other oid oid' d' ps :
  oid' <> oid -> Post._id d' = oid ->
  findById (replaceById oid d' ps) oid' = findById ps oid'.
Proof.
  unfold findById. intros D Id.
  induction ps as [|p ps IH]; simpl; [reflexivity|].
  destruct (N.eqb_spec (Post._id p) oid) as [E|E]; simpl.
  - rewrite Id, E.
    destruct (N.eqb_spec oid oid'); [congruence | reflexivity].
  - now rewrite IH.
Qed.

Lemma length_replaceById oid d' ps :
  List.length (replaceById oid d' ps) = List.length ps.
Proof.
  induction ps as [|p ps IH]; simpl; [reflexivity|].
  destruct (N.eqb (Post._id p) oid); simpl; auto.
Qed.

(** The answer 200 of [PUT /:id], spelled out. *)
Lemma updatePost_ok `{Deps} now id b st r st' :
  updatePost now id b st = (r, st') ->
  status r = 200 ->
  exists oid old t c,
    castObjectId id = Some oid
    /\ findById (posts st) oid = Some old
    /\ checkInput b = inr (t, c)
    /\ validateUpdate (updateOf now b t c) = []
    /\ r = mkResponse 200 (JsonPost (applyUpdate (updateOf now b t c) old))
    /\ st' = mkStore (replaceById oid (applyUpdate (updateOf now b t c) old)
                                  (posts st)) (nextId st).
Proof.
  intros U S200.
  destruct (castObjectId id) as [oid|] eqn:C.
  2:{ rewrite (updatePost_malformed _ _ _ _ C) in U.
      injection U as <- <-. discriminate. }
  destruct (bodyError now b) as [message|] eqn:B.
  { rewrite (updatePost_refused _ _ _ _ _ _ C B) in U.
    injection U as <- <-. discriminate. }
  destruct (findById (posts st) oid) as [old|] eqn:F.
  2:{ rewrite (updatePost_missing _ _ _ _ _ C B F) in U.
      injection U as <- <-. discriminate. }
  destruct (updatePost_found _ _ _ _ _ _ C B F) as (t & c & Chk & E).
  cbv zeta in E. rewrite E in U. injection U as <- <-.
  unfold bodyError in B. rewrite Chk, castUpdate_updateOf in B.
  exists oid, old, t, c. rewrite castUpdate_updateOf. repeat split; auto.
  destruct (validateUpdate _); [reflexivity | discriminate].
Qed.

(** X5. An update that succeeds replaces one document and nothing else: the
    new document keeps the [_id], the slug and [createdAt] of the old one
    and carries the time of the request in [updatedAt]; a get-by-id with the
    same id is answered with the new document, every other id is answered
    as before, and the collection keeps its size. *)
Theorem X5_update_then_get `{Deps} now id b st r st' :
  updatePost now id b st = (r, st') ->
  status r = 200 ->
  exists old new,
    getPost id st = mkResponse 200 (JsonPost old)
    /\ r = mkResponse 200 (JsonPost new)
    /\ getPost id st' = mkResponse 200 (JsonPost new)
    /\ Post._id new = Post._id old
    /\ Post.slug new = Post.slug old
    /\ Post.createdAt new = Post.createdAt old
    /\ Post.updatedAt new = now
    /\ List.length (posts st') = List.length (posts st)
    /\ nextId st' = nextId st
    /\ forall id' oid',
         castObjectId id' = Some oid' ->
         castObjectId id <> Some oid' ->
         getPost id' st' = getPost id' st.
Proof.
  intros U S200.
  destruct (updatePost_ok now id b st r st' U S200)
    as (oid & old & t & c & Cast & F & _ & _ & -> & ->).
  pose proof (findById_id _ _ _ F) as IdOld.
  exists old, (applyUpdate (updateOf now b t c) old).
  unfold getPost. rewrite Cast, F. cbn [posts nextId].
  rewrite (findById_replaceById_same oid old) by assumption.
  repeat split.
  - apply length_replaceById.
  - intros id' oid' Cast' D. rewrite Cast'.
    rewrite findById_replaceById_other; [reflexivity | congruence | assumption].
Qed.

Lemma X5_update_then_get_witness :
  exists r st',
    updatePost (H := asciiDeps) 2%N "000000000000000000000000"
               (plainBody "Goodbye Moon" "Second content") helloStore = (r, st')
    /\ status r = 200
    /\ exists old new,
         getPost (H := asciiDeps) "000000000000000000000000" helloStore
         = mkResponse 200 (JsonPost old)
         /\ r = mkResponse 200 (JsonPost new)
         /\ getPost (H := asciiDeps) "000000000000000000000000" st'
            = mkResponse 200 (JsonPost new)
         /\ Post.createdAt new = Post.createdAt old
         /\ Post.updatedAt new = 2%N.
Proof.
  eexists. eexists.
  split; [vm_compute; reflexivity|]. split; [reflexivity|].
  destruct (X5_update_then_get (H := asciiDeps) 2%N "000000000000000000000000"
              (plainBody "Goodbye Moon" "Second content") helloStore _ _
              eq_refl eq_refl)
    as (old & new & G & R & G' & _ & _ & Cr & Up & _).
  exists old, new. auto.
Defined.

(* ================================================================== *)
(** * The limits of the schema *)

(** X6. A body that passed the handler's checks but breaks a limit of the
    schema (a trimmed title of more than 200 characters, a trimmed excerpt of
    more than 500, a cover image whose trimmed value fails the validator, a
    normalised tag of more than 50) is refused by both routes with 400: a
    create stores nothing, and an update with a well-formed id changes
    nothing, whether or not the id matches a post. *)
Theorem X6_schema_limits_refused `{Deps} b t c :
  checkInput b = inr (t, c) ->
  200 < String.length (trim t)
  \/ (exists e, Body.excerpt b = Some e /\ 500 < String.length (trim e))
  \/ (exists v, Body.coverImage b = Some v /\ coverImageValidator (trim v) = false)
  \/ (exists tag, In tag (processTags (Body.tags b)) /\ 50 < String.length tag) ->
  (forall now st,
      exists message,
        createPost now b st
        = Some (mkResponse 400 (JsonError message),
                mkStore (posts st) (N.succ (nextId st))))
  /\ (forall now id oid st,
        castObjectId id = Some oid ->
        exists message,
          updatePost now id b st = (mkResponse 400 (JsonError message), st)).
Proof.
  intros Chk Bad.
  assert (forall ex cov : option string,
            (ex = trimIfTruthy (Body.excerpt b)) ->
            (cov = trimIfTruthy (Body.coverImage b)) ->
            ~ (String.length (trim t) <= 200
               /\ (forall e, ex = Some e -> String.length e <= 500)
               /\ (forall v, cov = Some v -> coverImageValidator v = true)
               /\ Forall (fun tag => String.length tag <= 50)
                         (processTags (Body.tags b)))) as Broken.
  { intros ex cov -> -> (Lt & Ex & Cov & Tags).
    destruct Bad as [L|[(e & Eb & L)|[(v & Vb & F)|(tag & I & L)]]].
    - lia.
    - rewrite Eb in Ex. simpl in Ex.
      destruct e as [|a e]; [simpl in L; lia|].
      specialize (Ex _ eq_refl). lia.
    - rewrite Vb in Cov. simpl in Cov.
      destruct v as [|a v]; [discriminate F|].
      specialize (Cov _ eq_refl). congruence.
    - rewrite Forall_forall in Tags. specialize (Tags tag I). lia. }
  split.
  - intros now st.
    destruct (createPost_total now b st) as (r & st' & C).
    destruct (createPost_cases now b st r st' C)
      as [(message & Chk' & _)|(t' & c' & m & Chk' & _ & _ & _ & Cases)];
      [congruence|].
    rewrite Chk in Chk'. injection Chk' as <- <-. cbv zeta in Cases.
    destruct Cases as [(_ & -> & ->)|[(V & _)|(V & _)]].
    + rewrite C. eauto.
    + exfalso. apply validateDoc_nil in V.
      apply (Broken _ _ eq_refl eq_refl).
      cbn [createdPost Post.title Post.excerpt Post.coverImage Post.tags] in V.
      tauto.
    + exfalso. apply validateDoc_nil in V.
      apply (Broken _ _ eq_refl eq_refl).
      cbn [createdPost Post.title Post.excerpt Post.coverImage Post.tags] in V.
      tauto.
  - intros now id oid st Cast.
    destruct (bodyError now b) as [message|] eqn:B.
    + exists message. now apply updatePost_refused with oid.
    + exfalso. unfold bodyError in B. rewrite Chk, castUpdate_updateOf in B.
      destruct (validateUpdate _) eqn:V; [|discriminate].
      apply validateUpdate_nil in V.
      apply (Broken _ _ eq_refl eq_refl).
      cbn [updateOf Update.title Update.excerpt Update.coverImage Update.tags]
        in V.
      tauto.
Qed.

Lemma X6_schema_limits_refused_witness :
  let b := Body.mk (Some "Hello World") (Some "First content") None
                   (Some " http://x.com/img.bmp ") None in
  checkInput b = inr ("Hello World", "First content")
  /\ (exists v, Body.coverImage b = Some v
                /\ coverImageValidator (trim v) = false)
  /\ exists message,
       updatePost (H := asciiDeps) 2%N "000000000000000000000000" b helloStore
       = (mkResponse 400 (JsonError message), helloStore).
Proof.
  cbv zeta.
  split; [reflexivity|]. split; [eexists; split; reflexivity|].
  apply (proj2 (X6_schema_limits_refused (H := asciiDeps)
                  (Body.mk (Some "Hello World") (Some "First content") None
                           (Some " http://x.com/img.bmp ") None)
                  "Hello World" "First content" eq_refl
                  (or_intror (or_intror (or_introl
                     (ex_intro _ " http://x.com/img.bmp "
                        (conj eq_refl eq_refl))))))
               2%N "000000000000000000000000" 0%N helloStore eq_refl).
Defined.

(* ================================================================== *)
(** * Sending a stored post back *)

Lemma trimAndDropEmpty_fixed (l : list string) :
  Forall (fun tag => tag <> "" /\ trim tag = tag) l -> trimAndDropEmpty l = l.
Proof.
  unfold trimAndDropEmpty.
  induction 1 as [|tag l [NE T] _ IH]; [reflexivity|]. simpl.
  rewrite T. destruct tag; [congruence|]. simpl. now rewrite IH.
Qed.

Lemma validPost_checkInput (p : Post.t) :
  validPost p ->
  checkInput (bodyOf p) = inr (Post.title p, Post.content p).
Proof.
  intros (Tt & Lt & Tc & Lc & _).
  apply checkInput_accepts; try reflexivity; rewrite ?Tt, ?Tc; lia.
Qed.

Lemma validPost_applyUpdate now (p : Post.t) :
  validPost p ->
  validateUpdate (updateOf now (bodyOf p) (Post.title p) (Post.content p)) = []
  /\ applyUpdate (updateOf now (bodyOf p) (Post.title p) (Post.content p)) p
     = Post.set_updatedAt now p.
Proof.
  intros (Tt & Lt & Tc & Lc & Sl & Ex & Cov & Tags).
  assert (processTags (Some (TagsArray (Post.tags p))) = Post.tags p) as PT.
  { unfold processTags. cbn [truthyTags]. apply trimAndDropEmpty_fixed.
    revert Tags. apply Forall_impl. tauto. }
  split.
  - apply validateUpdate_nil.
    cbn [updateOf bodyOf Update.title Update.content Update.excerpt
         Update.coverImage Update.tags Body.excerpt Body.coverImage Body.tags].
    rewrite Tt, Tc, PT. repeat split.
    + destruct (Post.title p); [simpl in Lt; lia | discriminate].
    + lia.
    + destruct (Post.content p); [simpl in Lc; lia | discriminate].
    + intros e E. destruct (Post.excerpt p) as [e0|]; [|discriminate].
      simpl in E. destruct (truthy e0); [|discriminate]. injection E as <-.
      destruct (Ex e0 eq_refl) as [-> L]. exact L.
    + intros c E. destruct (Post.coverImage p) as [c0|]; [|discriminate].
      simpl in E. destruct (truthy c0); [|discriminate]. injection E as <-.
      destruct (Cov c0 eq_refl) as [-> V]. exact V.
    + revert Tags. apply Forall_impl. tauto.
  - unfold applyUpdate, updateOf, bodyOf, Post.set_updatedAt.
    cbn [Update.title Update.content Update.excerpt Update.coverImage
         Update.tags Update.updatedAt Body.excerpt Body.coverImage Body.tags].
    rewrite Tt, Tc, PT.
    assert (forall v : option string,
              (forall e, v = Some e -> trim e = e) ->
              match trimIfTruthy v with Some e => Some e | None => v end = v)
      as Keep.
    { intros [e|] T; [|reflexivity]. simpl.
      destruct (truthy e); [|reflexivity]. now rewrite (T e eq_refl). }
    rewrite !Keep; [reflexivity | |].
    + intros c E. now destruct (Cov c E).
    + intros e E. now destruct (Ex e E).
Qed.

(** X7. Sending a stored post back changes nothing but [updatedAt]: when a
    stored post is valid, an update whose body carries its title, content,
    excerpt, cover image and tags as they are stored succeeds, and the post
    it stores differs from the old one in [updatedAt] alone. *)
Theorem X7_put_of_get_is_identity `{Deps} now id oid st p :
  castObjectId id = Some oid ->
  findById (posts st) oid = Some p ->
  validPost p ->
  updatePost now id (bodyOf p) st
  = (mkResponse 200 (JsonPost (Post.set_updatedAt now p)),
     mkStore (replaceById oid (Post.set_updatedAt now p) (posts st)) (nextId st)).
Proof.
  intros Cast F V.
  destruct (validPost_applyUpdate now p V) as [Val App].
  assert (bodyError now (bodyOf p) = None) as B.
  { unfold bodyError.
    now rewrite (validPost_checkInput p V), castUpdate_updateOf, Val. }
  destruct (updatePost_found _ _ _ _ _ _ Cast B F) as (t & c & Chk & E).
  rewrite (validPost_checkInput p V) in Chk. injection Chk as <- <-.
  cbv zeta in E. now rewrite castUpdate_updateOf, App in E.
Qed.

Lemma X7_put_of_get_is_identity_witness :
  exists p,
    castObjectId (Deps := asciiDeps) "000000000000000000000000" = Some 0%N
    /\ findById (posts helloStore) 0%N = Some p
    /\ validPost p
    /\ updatePost (H := asciiDeps) 9%N "000000000000000000000000" (bodyOf p)
                  helloStore
       = (mkResponse 200 (JsonPost (Post.set_updatedAt 9%N p)),
          mkStore (replaceById 0%N (Post.set_updatedAt 9%N p) (posts helloStore))
                  (nextId helloStore)).
Proof.
  eexists.
  split; [reflexivity|]. split; [vm_compute; reflexivity|].
  assert (validPost
            (Post.mk 0%N "Hello World" "hello-world" "First content" None []
                     None 1%N 1%N)) as V.
  { unfold validPost. simpl.
    repeat split; try reflexivity; try lia; try discriminate; constructor. }
  split; [exact V|].
  apply (X7_put_of_get_is_identity (H := asciiDeps) 9%N
           "000000000000000000000000" 0%N helloStore _ eq_refl eq_refl V).
Defined.

(* ================================================================== *)
(** * What a request to delete a post does *)

Lemma findById_absent ps oid :
  ~ In oid (map Post._id ps) -> findById ps oid = None.
Proof.
  unfold findById. induction ps as [|p ps IH]; simpl; [reflexivity|].
  intros NI. destruct (N.eqb_spec (Post._id p) oid) as [E|_]; [tauto|].
  apply IH. tauto.
Qed.

Lemma findById_removeById_gone ps oid :
  NoDup (map Post._id ps) -> findById (removeById oid ps) oid = None.
Proof.
  induction ps as [|p ps IH]; simpl; [reflexivity|].
  intros ND. inversion ND as [|? ? NI ND']; subst.
  destruct (N.eqb_spec (Post._id p) oid) as [E|E].
  - apply findById_absent. now rewrite <- E.
  - unfold findById in *. simpl.
    destruct (N.eqb_spec (Post._id p) oid); [congruence | auto].
Qed.

Lemma length_removeById ps oid d :
  findById ps oid = Some d ->
  S (List.length (removeById oid ps)) = List.length ps.
Proof.
  unfold findById. induction ps as [|p ps IH]; simpl; [discriminate|].
  destruct (N.eqb (Post._id p) oid); [reflexivity|].
  intros F. simpl. now rewrite IH.
Qed.

(** X8. A delete that succeeds removes exactly the post a get-by-id returned
    for the same id and answers with it; in a well-formed collection the id
    is unknown afterwards (get-by-id and a second delete are answered with
    404) and the collection has one post less.  A delete that is not
    answered with 200 changes nothing. *)
Theorem X8_delete_then_get `{Deps} id st r st' :
  wellFormed st ->
  deletePost id st = (r, st') ->
  (status r = 200 ->
     exists d,
       getPost id st = mkResponse 200 (JsonPost d)
       /\ r = mkResponse 200 (JsonDeleted "Post deleted successfully" d)
       /\ status (getPost id st') = 404
       /\ status (fst (deletePost id st')) = 404
       /\ S (List.length (posts st')) = List.length (posts st))
  /\ (status r <> 200 -> st' = st).
Proof.
  intros (_ & NId & _). unfold deletePost, getPost.
  destruct (castObjectId id) as [oid|] eqn:Cast.
  2:{ intros [= <- <-]. split; [discriminate | reflexivity]. }
  destruct (findById (posts st) oid) as [d|] eqn:F.
  2:{ intros [= <- <-]. split; [discriminate | reflexivity]. }
  intros [= <- <-]. split; [intros _ | intros NS; now elim NS].
  exists d. cbn [posts nextId].
  rewrite (findById_removeById_gone (posts st) oid NId).
  repeat split. now apply length_removeById with d.
Qed.

Lemma X8_delete_then_get_witness :
  exists r st',
    wellFormed helloStore
    /\ deletePost (H := asciiDeps) "000000000000000000000000" helloStore = (r, st')
    /\ status r = 200
    /\ status (getPost (H := asciiDeps) "000000000000000000000000" st') = 404.
Proof.
  assert (wellFormed helloStore) as W.
  { split; [intros p [<-|[]]; vm_compute; reflexivity|].
    split; vm_compute; (constructor; [intros []|constructor]). }
  eexists. eexists.
  split; [exact W|]. split; [vm_compute; reflexivity|]. split; [reflexivity|].
  destruct (proj1 (X8_delete_then_get (H := asciiDeps)
                     "000000000000000000000000" helloStore _ _ W eq_refl)
                  eq_refl)
    as (d & _ & _ & G & _).
  exact G.
Defined.

(* ================================================================== *)
(** * Every collection the handlers can build *)

Section Reachable.
Context `{Deps}.








End Reachable.


(* ================================================================== *)
(** * The hook on a stored document *)

(** X10. The [pre('validate')] hook changes nothing but the slug and
    [updatedAt], and the slug only when there is a title and the slug is
    missing or the title was modified.  A document with a modified title
    gets the lowest-numbered candidate of its title that no other document
    carries; its own slug does not count as a collision, so a document whose
    title still gives its slug, and which no other document shares, keeps
    it.  Without a title the slug is left as it is. *)
Theorem X10_hook_on_stored_document `{Deps} ps now this :
  (Post.title this = "" ->
     forall modified,
       preValidate ps now modified this = Some (Post.set_updatedAt now this))
  /\ (Post.slug this <> "" ->
        preValidate ps now false this = Some (Post.set_updatedAt now this))
  /\ (Post.title this <> "" ->
        exists m,
          preValidate ps now true this
          = Some (Post.set_updatedAt now
                    (Post.set_slug (candidate (slugify (Post.title this)) m)
                                   this))
          /\ taken ps (Post._id this) (candidate (slugify (Post.title this)) m)
             = false
          /\ (forall j, j < m ->
                taken ps (Post._id this)
                      (candidate (slugify (Post.title this)) j) = true)
          /\ ((forall p, In p ps -> Post._id p <> Post._id this ->
                         Post.slug p <> slugify (Post.title this)) ->
              m = 0)).
Proof.
  split; [|split].
  - intros T modified. unfold preValidate. now rewrite T.
  - intros S. unfold preValidate.
    destruct (Post.slug this); [congruence|]. simpl.
    now rewrite andb_false_r.
  - intros T. unfold preValidate.
    destruct (Post.title this) as [|a t] eqn:ET; [congruence|].
    cbn [truthy andb]. rewrite orb_true_r.
    destruct (probe_total ps (Post._id this) (slugify (String a t)))
      as (m & Hm & Free & Busy & Run).
    unfold uniqueSlug. rewrite Run by lia.
    exists m. repeat split; try assumption.
    intros Others. destruct m as [|m]; [reflexivity | exfalso].
    specialize (Busy 0 (Nat.lt_0_succ m)). apply taken_spec in Busy.
    destruct Busy as (p & I & E & D). now apply (Others p).
Qed.

Lemma X10_hook_on_stored_document_witness :
  let this := Post.mk 0%N "Hello  world" "hello-world" "First content" None []
                      None 1%N 1%N in
  Post.title this <> ""
  /\ (forall p, In p (posts helloStore) -> Post._id p <> Post._id this ->
                Post.slug p <> slugify (Deps := asciiDeps) (Post.title this))
  /\ preValidate (H := asciiDeps) (posts helloStore) 5%N true this
     = Some (Post.set_updatedAt 5%N this).
Proof.
  cbv zeta.
  assert (forall p, In p (posts helloStore) -> Post._id p <> 0%N ->
                    Post.slug p <> "hello-world") as Others.
  { intros p [<-|[]] D. now elim D. }
  split; [discriminate|]. split; [exact Others|].
  destruct (proj2 (proj2 (X10_hook_on_stored_document (H := asciiDeps)
                            (posts helloStore) 5%N
                            (Post.mk 0%N "Hello  world" "hello-world"
                                     "First content" None [] None 1%N 1%N))))
    as (m & E & _ & _ & Zero); [discriminate|].
  rewrite E, (Zero Others). reflexivity.
Defined.

(* ================================================================== *)
(** * Posts whose titles share a slug *)

Section SameBase.
Context `{Deps}.


End SameBase.



(* ================================================================== *)
(** * Numeric query parameters *)






(* ================================================================== *)
(** * The two forms of the tags *)

Lemma split_free (sep : ascii) (p : string) :
  freeOf sep p -> split sep p = [p].
Proof.
  unfold freeOf. induction p as [|c p IH]; simpl; [reflexivity|].
  intros F. destruct (Ascii.eqb_spec c sep) as [E|_]; [tauto|].
  rewrite IH by tauto. reflexivity.
Qed.

Lemma split_app_sep (sep : ascii) (p s : string) :
  freeOf sep p -> split sep (p ++ String sep s) = p :: split sep s.
Proof.
  unfold freeOf. induction p as [|c p IH]; simpl.
  - intros _. now rewrite Ascii.eqb_refl.
  - intros F. destruct (Ascii.eqb_spec c sep) as [E|_]; [tauto|].
    rewrite IH by tauto. reflexivity.
Qed.

(** Splitting what was joined gives the pieces back. *)
Lemma split_join (sep : ascii) (l : list string) :
  l <> [] -> Forall (freeOf sep) l ->
  split sep (join (String sep "") l) = l.
Proof.
  induction l as [|p l IH]; [congruence|]. intros _ F.
  inversion F as [|? ? Fp Fl]; subst.
  destruct l as [|q l].
  - simpl. now apply split_free.
  - rewrite join_cons by discriminate.
    change (String sep "" ++ join (String sep "") (q :: l))%string
      with (String sep (join (String sep "") (q :: l))).
    rewrite split_app_sep by assumption.
    rewrite IH; [reflexivity | discriminate | assumption].
Qed.

(** X14. The two forms of the tags input agree: entries without a comma
    give the same normalised tags whether they are sent as an array or
    joined with commas into one string. *)
Theorem X14_tag_forms_agree (entries : list string) :
  Forall (freeOf ",") entries ->
  processTags (Some (TagsString (join "," entries)))
  = processTags (Some (TagsArray entries)).
Proof.
  intros F. destruct entries as [|p l]; [reflexivity|].
  pose proof (split_join "," (p :: l) ltac:(discriminate) F) as SJ.
  unfold processTags. cbn [truthyTags].
  destruct (join "," (p :: l)) as [|a s] eqn:J.
  - simpl in SJ. rewrite <- SJ. reflexivity.
  - cbn [truthy]. now rewrite SJ.
Qed.

Lemma X14_tag_forms_agree_witness :
  Forall (freeOf ",") [" a"; ""; "b c "]
  /\ processTags (Some (TagsString (join "," [" a"; ""; "b c "])))
     = processTags (Some (TagsArray [" a"; ""; "b c "]))
  /\ processTags (Some (TagsArray [" a"; ""; "b c "])) = ["a"; "b c"].
Proof.
  assert (Forall (freeOf ",") [" a"; ""; "b c "]) as F.
  { repeat constructor; unfold freeOf; simpl; intuition discriminate. }
  split; [exact F|]. split; [|reflexivity].
  apply X14_tag_forms_agree. exact F.
Defined.

(** X15. Tag normalisation is idempotent and never adds a tag: normalising
    the normalised tags again, as an array, gives the same tags, and the
    result has at most as many tags as the array had entries. *)
Theorem X15_tags_idempotent :
  (forall tags : option TagsInput,
      processTags (Some (TagsArray (processTags tags))) = processTags tags)
  /\ (forall entries : list string,
        List.length (processTags (Some (TagsArray entries)))
        <= List.length entries).
Proof.
  split.
  - intros tags. unfold processTags at 1. cbn [truthyTags].
    apply trimAndDropEmpty_fixed, processTags_clean.
  - intros entries. unfold processTags, trimAndDropEmpty. cbn [truthyTags].
    rewrite <- (length_map trim entries). apply filter_length_le.
Qed.

(* ================================================================== *)
(** * Letter case in the cover image *)

Lemma canonicalize_lowerChar (x : ascii) :
  canonicalize (lowerChar x) = canonicalize x.
Proof. destruct x as [[] [] [] [] [] [] [] []]; reflexivity. Qed.

Lemma isLineTerminator_lowerChar (x : ascii) :
  isLineTerminator (lowerChar x) = isLineTerminator x.
Proof. destruct x as [[] [] [] [] [] [] [] []]; reflexivity. Qed.

Lemma deriv_lowerChar (x : ascii) (r : regex) :
  deriv (lowerChar x) r = deriv x r.
Proof.
  induction r; simpl;
    rewrite ?canonicalize_lowerChar, ?isLineTerminator_lowerChar,
      ?IHr1, ?IHr2, ?IHr; reflexivity.
Qed.

Lemma accepts_toLowerCase (v : string) : forall r,
  accepts r (list_ascii_of_string (toLowerCase v))
  = accepts r (list_ascii_of_string v).
Proof.
  induction v as [|x v IH]; intros r; simpl; [reflexivity|].
  now rewrite deriv_lowerChar, IH.
Qed.

(** X16. The cover-image validator does not look at the case of letters: a
    value and its lower-case form are accepted or rejected alike. *)
Theorem X16_cover_image_ignores_case (v : string) :
  coverImageValidator (toLowerCase v) = coverImageValidator v.
Proof.
  unfold coverImageValidator, test. rewrite accepts_toLowerCase.
  destruct v; reflexivity.
Qed.

(* ================================================================== *)
(** * What trimming removes *)

Lemma trimStart_decomp (s : string) :
  exists pre, s = (pre ++ trimStart s)%string /\ blank pre.
Proof.
  induction s as [|c s (pre & E & B)]; simpl.
  - exists "". split; [reflexivity | constructor].
  - destruct (isWhiteSpace c) eqn:W.
    + exists (String c pre). split; [simpl; now rewrite <- E|].
      now constructor.
    + exists "". split; [reflexivity | constructor].
Qed.

Lemma trimEnd_decomp (s : string) :
  exists post, s = (trimEnd s ++ post)%string /\ blank post.
Proof.
  induction s as [|c s (post & E & B)].
  - exists "". split; [reflexivity | constructor].
  - rewrite trimEnd_cons. destruct (trimEnd s) as [|d r].
    + simpl in E. subst post. destruct (isWhiteSpace c) eqn:W.
      * exists (String c s). split; [reflexivity | now constructor].
      * exists s. split; [reflexivity | assumption].
    + exists post. split; [|assumption].
      change (String c s = String c (String d r ++ post)%string).
      now rewrite <- E.
Qed.

Lemma endsTight_trimEnd (s : string) : endsTight (trimEnd s) = true.
Proof.
  induction s as [|c s IH]; [reflexivity|].
  rewrite trimEnd_cons. destruct (trimEnd s) as [|d r].
  - destruct (isWhiteSpace c) eqn:W; simpl; [reflexivity | now rewrite W].
  - exact IH.
Qed.

Lemma startsTight_trim (s : string) : startsTight (trim s) = true.
Proof.
  unfold trim. pose proof (trimStart_head s) as Hd.
  destruct (trimStart s) as [|c r]; [reflexivity|].
  destruct (trimEnd_head c r Hd) as [r' ->]. simpl. now rewrite Hd.
Qed.

Lemma trimEnd_tight (s : string) : endsTight s = true -> trimEnd s = s.
Proof.
  induction s as [|c s IH]; [reflexivity|].
  rewrite trimEnd_cons. destruct s as [|d r].
  - simpl. intros T. apply negb_true_iff in T. now rewrite T.
  - intros T. change (endsTight (String d r) = true) in T.
    now rewrite (IH T).
Qed.

(** X17. Trimming removes the white space at both ends and nothing else:
    every string is white space, then its trimmed form, then white space;
    the trimmed form neither starts nor ends with white space; a string that
    neither starts nor ends with white space is its own trimmed form; and
    trimming twice is trimming once. *)
Theorem X17_trim_removes_outer_white_space (s : string) :
  (exists pre post,
      s = (pre ++ trim s ++ post)%string /\ blank pre /\ blank post)
  /\ startsTight (trim s) = true
  /\ endsTight (trim s) = true
  /\ (startsTight s = true -> endsTight s = true -> trim s = s)
  /\ trim (trim s) = trim s.
Proof.
  repeat split.
  - destruct (trimStart_decomp s) as (pre & E & B).
    destruct (trimEnd_decomp (trimStart s)) as (post & E' & B').
    exists pre, post. unfold trim. rewrite <- E'. auto.
  - apply startsTight_trim.
  - apply endsTight_trimEnd.
  - intros S E. unfold trim.
    assert (trimStart s = s) as ->.
    { destruct s as [|c r]; [reflexivity|]. simpl in *.
      apply negb_true_iff in S. now rewrite S. }
    now apply trimEnd_tight.
  - apply trim_idempotent.
Qed.

Lemma X17_trim_removes_outer_white_space_witness :
  startsTight "Hello World" = true
  /\ endsTight "Hello World" = true
  /\ trim "Hello World" = "Hello World".
Proof.
  split; [reflexivity|]. split; [reflexivity|].
  apply (proj1 (proj2 (proj2 (proj2
           (X17_trim_removes_outer_white_space "Hello World")))));
    reflexivity.
Defined.
